(** * Fisher GAN trainer (dlt/train/fishergan.py)

    A shallow embedding of [FisherGANTrainer] and of the properties its
    specification states about the discriminator step, the generator step
    and the Lagrange multiplier [alpha].

    Numbers.  Tensor entries and the Python floats extracted from them are
    modelled as real numbers; rounding is not modelled, and the properties
    below state what the code computes through the operations it applies,
    in the order in which it applies them.  The one place where Python's
    float arithmetic is not total, the true division [ipm_enum/ipm_denom],
    is modelled with its exception.

    Effects.  A step mutates the trainer object; it is modelled by explicit
    state passing, and a step that raises keeps the mutations made before
    the exception. *)

From Stdlib Require Import Reals Lra ZArith Lia String List.
From stdpp Require Import base option list strings gmap.

#[local] Open Scope R_scope.

(** ** Tensors *)

(** A tensor is the flat sequence of its entries. *)
Abbreviation Tensor := (list R).

Module Torch.

Definition sum (t : Tensor) : R := foldr Rplus 0 t.

(** [t.mean()], for a tensor that is not empty (on an empty one torch
    returns nan, which the reals do not have). *)
Definition mean (t : Tensor) : R := sum t / INR (length t).

(** [t ** 2], elementwise *)
Definition sq (t : Tensor) : Tensor := (fun x => x ^ 2) <$> t.

Definition zeros_like (t : Tensor) : Tensor := (fun _ => 0) <$> t.

(** Entrywise sum; the shorter operand decides the length, as [zip]. *)
Definition add (a b : Tensor) : Tensor := zip_with Rplus a b.

End Torch.

(** ** Autograd on the scalar graph of the loss

    [alpha] is a leaf of the graph of [d_loss]; the batch statistics are
    nodes that do not depend on it.  [Graph] is the part of the graph that
    [backward] walks to reach [alpha]. *)

Inductive Graph : Type :=
| GAlpha                          (* the leaf [self.alpha] *)
| GConst (r : R)                  (* a node that does not depend on alpha *)
| GNeg (g : Graph)
| GAdd (g1 g2 : Graph)
| GSub (g1 g2 : Graph)
| GMul (g1 g2 : Graph)
| GPow (g : Graph) (n : nat).

(** The value of a node when the leaf holds [a]. *)
Fixpoint value (a : R) (g : Graph) : R :=
  match g with
  | GAlpha => a
  | GConst r => r
  | GNeg g => - value a g
  | GAdd g1 g2 => value a g1 + value a g2
  | GSub g1 g2 => value a g1 - value a g2
  | GMul g1 g2 => value a g1 * value a g2
  | GPow g n => value a g ^ n
  end.

(** Reverse mode: [backward a g up] is what the node [g], reached with the
    upstream gradient [up], adds to [alpha.grad]. *)
Fixpoint backward (a : R) (g : Graph) (up : R) : R :=
  match g with
  | GAlpha => up
  | GConst _ => 0
  | GNeg g => backward a g (- up)
  | GAdd g1 g2 => backward a g1 up + backward a g2 up
  | GSub g1 g2 => backward a g1 up + backward a g2 (- up)
  | GMul g1 g2 =>
      backward a g1 (up * value a g2) + backward a g2 (up * value a g1)
  | GPow g n => backward a g (up * (INR n * value a g ^ pred n))
  end.

Lemma backward_linear a g up : backward a g up = up * backward a g 1.
Proof.
  revert up; induction g as [| r | g IH | g1 IH1 g2 IH2 | g1 IH1 g2 IH2
                            | g1 IH1 g2 IH2 | g IH n]; intros up; simpl.
  - lra.
  - lra.
  - rewrite (IH (- up)), (IH (Ropp 1)); lra.
  - rewrite (IH1 up), (IH2 up); lra.
  - rewrite (IH1 up), (IH2 (- up)), (IH2 (Ropp 1)); lra.
  - rewrite (IH1 (up * _)), (IH2 (up * _)), (IH1 (1 * _)), (IH2 (1 * _)); lra.
  - rewrite (IH (up * _)), (IH (1 * _)); lra.
Qed.

(** [backward] computes the derivative of the value in the leaf. *)
Lemma backward_derivative g a :
  derivable_pt_lim (fun x => value x g) a (backward a g 1).
Proof.
  induction g as [| r | g IH | g1 IH1 g2 IH2 | g1 IH1 g2 IH2
                 | g1 IH1 g2 IH2 | g IH n]; simpl.
  - apply derivable_pt_lim_id.
  - apply derivable_pt_lim_const.
  - rewrite backward_linear.
    replace (Ropp 1 * backward a g 1) with (- backward a g 1) by lra.
    apply (derivable_pt_lim_opp _ _ _ IH).
  - apply (derivable_pt_lim_plus _ _ _ _ _ IH1 IH2).
  - rewrite (backward_linear a g2 (Ropp 1)).
    replace (backward a g1 1 + Ropp 1 * backward a g2 1)
      with (backward a g1 1 - backward a g2 1) by lra.
    apply (derivable_pt_lim_minus _ _ _ _ _ IH1 IH2).
  - rewrite (backward_linear a g1 (1 * _)), (backward_linear a g2 (1 * _)).
    replace (1 * value a g2 * backward a g1 1 + 1 * value a g1 * backward a g2 1)
      with (backward a g1 1 * value a g2 + value a g1 * backward a g2 1) by lra.
    apply (derivable_pt_lim_mult _ _ _ _ _ IH1 IH2).
  - rewrite (backward_linear a g (1 * _)).
    replace (1 * (INR n * value a g ^ pred n) * backward a g 1)
      with (INR n * value a g ^ pred n * backward a g 1) by lra.
    apply (derivable_pt_lim_comp (fun x => value x g) (fun y => y ^ n)
             a _ _ IH (derivable_pt_lim_pow (value a g) n)).
Qed.

(** ** Modules, parameters and optimizers *)

(** A parameter of an [nn.Module]: its data, its accumulated gradient
    ([None] until a backward pass reaches it) and its [requires_grad] flag. *)
Record Param : Type := mkParam {
  p_data : Tensor;
  p_grad : option Tensor;
  p_requires_grad : bool;
}.

(** A module is seen through [parameters()]. *)
Abbreviation NNModule := (list Param).

Definition set_requires_grad (b : bool) (p : Param) : Param :=
  mkParam (p_data p) (p_grad p) b.

(** [module.zero_grad()]: gradients that exist are zeroed in place. *)
Definition zero_grad (m : NNModule) : NNModule :=
  (fun p => mkParam (p_data p) (Torch.zeros_like <$> p_grad p)
                    (p_requires_grad p)) <$> m.

(** What a backward pass does to one leaf that it reaches with gradient [g]:
    nothing unless the leaf requires a gradient, else accumulate. *)
Definition accumulate (p : Param) (g : Tensor) : Param :=
  if p_requires_grad p
  then mkParam (p_data p)
               (Some (match p_grad p with
                      | None => g
                      | Some old => Torch.add old g
                      end))
               true
  else p.

Definition accumulate_all (m : NNModule) (gs : list Tensor) : NNModule :=
  imap (fun i p => match gs !! i with
                   | Some g => accumulate p g
                   | None => p
                   end) m.

Definition write_data (m : NNModule) (ds : list Tensor) : NNModule :=
  imap (fun i p => match ds !! i with
                   | Some d => mkParam d (p_grad p) (p_requires_grad p)
                   | None => p
                   end) m.

Definition datas (m : NNModule) : list Tensor := p_data <$> m.
Definition flags (m : NNModule) : list bool := p_requires_grad <$> m.

(** The collaborators of the trainer, which it only calls: the two networks
    as functions of their parameter data, the gradients autograd computes
    for the network parameters, and the update rules of the optimizers. *)
Class Collaborators : Type := {
  OptState : Type;
  (** [generator(x)] and [discriminator(x)] *)
  generator_call : list Tensor -> Tensor -> Tensor;
  discriminator_call : list Tensor -> Tensor -> Tensor;
  (** gradients of [d_loss] in the discriminator parameters; the arguments
      are the parameter data, the prediction, the real batch, alpha, rho
      and the extra loss *)
  d_loss_grads :
    list Tensor -> Tensor -> Tensor -> R -> R ->
    option (Tensor -> Tensor -> R) -> list Tensor;
  (** gradients of the generator error in the generator parameters; the
      arguments are the generator data, the discriminator data and the
      generator input *)
  g_error_grads : list Tensor -> list Tensor -> Tensor -> list Tensor;
  (** [optimizer.step()] of each optimizer: the new optimizer state and
      parameter data *)
  g_optimizer_rule : OptState -> NNModule -> OptState * list Tensor;
  d_optimizer_rule : OptState -> NNModule -> OptState * list Tensor;
}.

(** An autograd [Variable] holding one number, as [self.alpha]. *)
Record Var : Type := mkVar {
  data : R;
  grad : option R;
  requires_grad : bool;
}.

(** Python exceptions a step can end with. *)
Inductive Exn : Type :=
| ZeroDivisionError     (* float division by zero *)
| AttributeError        (* [.data] of a gradient that is [None] *)
| TypeError             (* arithmetic on [None] *)
| RuntimeError.         (* backward on a graph in which nothing requires grad *)

(** The modes of the trainer. *)
Inductive Mode : Type := Training | Evaluation.

Section Trainer.

Context `{C : Collaborators}.

(** The fields of a [FisherGANTrainer]. *)
Record Trainer : Type := mkTrainer {
  generator : NNModule;
  discriminator : NNModule;
  g_optimizer : OptState;
  d_optimizer : OptState;
  d_iter : Z;
  d_iter_counter : Z;
  add_loss : option (Tensor -> Tensor -> R);
  _losses : gmap string (list string);
  rho : R;
  alpha : option Var;
  training : bool;
  _use_no_grad : bool;
}.

Definition mode (self : Trainer) : Mode :=
  if training self then Training else Evaluation.

(** Field assignments. *)
Definition set_generator (v : NNModule) (s : Trainer) : Trainer :=
  mkTrainer v (discriminator s) (g_optimizer s) (d_optimizer s) (d_iter s)
    (d_iter_counter s) (add_loss s) (_losses s) (rho s) (alpha s)
    (training s) (_use_no_grad s).
Definition set_discriminator (v : NNModule) (s : Trainer) : Trainer :=
  mkTrainer (generator s) v (g_optimizer s) (d_optimizer s) (d_iter s)
    (d_iter_counter s) (add_loss s) (_losses s) (rho s) (alpha s)
    (training s) (_use_no_grad s).
Definition set_g_optimizer (v : OptState) (s : Trainer) : Trainer :=
  mkTrainer (generator s) (discriminator s) v (d_optimizer s) (d_iter s)
    (d_iter_counter s) (add_loss s) (_losses s) (rho s) (alpha s)
    (training s) (_use_no_grad s).
Definition set_d_optimizer (v : OptState) (s : Trainer) : Trainer :=
  mkTrainer (generator s) (discriminator s) (g_optimizer s) v (d_iter s)
    (d_iter_counter s) (add_loss s) (_losses s) (rho s) (alpha s)
    (training s) (_use_no_grad s).
Definition set_d_iter_counter (v : Z) (s : Trainer) : Trainer :=
  mkTrainer (generator s) (discriminator s) (g_optimizer s) (d_optimizer s)
    (d_iter s) v (add_loss s) (_losses s) (rho s) (alpha s)
    (training s) (_use_no_grad s).
Definition set_losses (v : gmap string (list string)) (s : Trainer)
  : Trainer :=
  mkTrainer (generator s) (discriminator s) (g_optimizer s) (d_optimizer s)
    (d_iter s) (d_iter_counter s) (add_loss s) v (rho s) (alpha s)
    (training s) (_use_no_grad s).
Definition set_rho (v : R) (s : Trainer) : Trainer :=
  mkTrainer (generator s) (discriminator s) (g_optimizer s) (d_optimizer s)
    (d_iter s) (d_iter_counter s) (add_loss s) (_losses s) v (alpha s)
    (training s) (_use_no_grad s).
Definition set_alpha (v : option Var) (s : Trainer) : Trainer :=
  mkTrainer (generator s) (discriminator s) (g_optimizer s) (d_optimizer s)
    (d_iter s) (d_iter_counter s) (add_loss s) (_losses s) (rho s) v
    (training s) (_use_no_grad s).
Definition set_training (v : bool) (s : Trainer) : Trainer :=
  mkTrainer (generator s) (discriminator s) (g_optimizer s) (d_optimizer s)
    (d_iter s) (d_iter_counter s) (add_loss s) (_losses s) (rho s)
    (alpha s) v (_use_no_grad s).

(** *** Statements on [self]

    A method body is a computation that reads and writes the trainer and
    ends with a value or with an exception. *)
Definition Py (A : Type) : Type := Trainer -> Trainer * (Exn + A).

Definition ret {A} (a : A) : Py A := fun s => (s, inr a).
Definition raise {A} (e : Exn) : Py A := fun s => (s, inl e).
Definition bind {A B} (c : Py A) (k : A -> Py B) : Py B :=
  fun s => match c s with
           | (s', inr a) => k a s'
           | (s', inl e) => (s', inl e)
           end.
Definition get : Py Trainer := fun s => (s, inr s).
Definition gets {A} (f : Trainer -> A) : Py A := fun s => (s, inr (f s)).
Definition modify (f : Trainer -> Trainer) : Py unit :=
  fun s => (f s, inr tt).

End Trainer.

Declare Scope py_scope.
Delimit Scope py_scope with py.
Notation "x <- c ;; k" := (bind c (fun x => k))
  (at level 100, c at next level, right associativity) : py_scope.
Notation "c ;; k" := (bind c (fun _ => k))
  (at level 100, right associativity) : py_scope.

#[local] Open Scope py_scope.

(** ** The steps of [FisherGANTrainer] *)

Section Steps.

Context `{C : Collaborators}.

(** Modelled from the spec: [_get_scalar_value] of dlt/util/misc.py, a
    module outside the sources covered here; the spec describes it as the
    extraction of the scalar held by a 0-dimensional tensor, as a Python
    float. *)
Definition _get_scalar_value (x : R) : R := x.

(** Python's [x / y] on floats. *)
Definition py_div (x y : R) : Py R :=
  if Req_dec_T y 0 then raise ZeroDivisionError else ret (x / y).

(** Reading [self.alpha] where a [Variable] is needed. *)
Definition the_alpha : Py Var :=
  a <- gets alpha ;;
  match a with
  | Some v => ret v
  | None => raise TypeError
  end.

(** The locals of the forward pass of [d_step] (lines 53 to 64). *)
Record Forward : Type := mkForward {
  prediction : Tensor;
  vphi_fake : Tensor;
  vphi_real : Tensor;
  epf : R;
  eqf : R;
  epf2 : R;
  eqf2 : R;
  constraint : R;
}.

Definition d_forward (self : Trainer) (g_input real_input : Tensor)
  : Forward :=
  let prediction :=
    if _use_no_grad self
    then (* with torch.no_grad(): *)
      generator_call (datas (generator self)) g_input
    else (* volatile=True *)
      generator_call (datas (generator self)) g_input in
  let vphi_fake := discriminator_call (datas (discriminator self)) prediction in
  let vphi_real := discriminator_call (datas (discriminator self)) real_input in
  let epf := Torch.mean vphi_real in
  let eqf := Torch.mean vphi_fake in
  let epf2 := Torch.mean (Torch.sq vphi_real) in
  let eqf2 := Torch.mean (Torch.sq vphi_fake) in
  let constraint := 1 - (0.5 * epf2 + 0.5 * eqf2) in
  mkForward prediction vphi_fake vphi_real epf eqf epf2 eqf2 constraint.

(** The graph of [d_loss] (lines 65 to 68). *)
Definition d_loss_graph (self : Trainer) (fw : Forward)
    (real_input : Tensor) : Graph :=
  let d_loss :=
    GNeg (GSub (GAdd (GSub (GConst (epf fw)) (GConst (eqf fw)))
                     (GMul GAlpha (GConst (constraint fw))))
               (GMul (GConst (rho self / 2))
                     (GPow (GConst (constraint fw)) 2))) in
  match add_loss self with
  | Some f => GAdd d_loss (GConst (f (prediction fw) real_input))
  | None => d_loss
  end.

(** [d_loss.backward()]: the discriminator parameters and [alpha] are the
    leaves it can reach. *)
Definition d_backward (fw : Forward) (d_loss : Graph)
    (real_input : Tensor) : Py unit :=
  al <- the_alpha ;;
  disc <- gets discriminator ;;
  if negb (requires_grad al || existsb p_requires_grad disc)
  then raise RuntimeError
  else
    modify (fun s =>
      set_discriminator
        (accumulate_all (discriminator s)
           (d_loss_grads (datas (discriminator s)) (prediction fw)
              real_input (data al) (rho s) (add_loss s))) s) ;;
    modify (set_alpha
      (Some (if requires_grad al
             then mkVar (data al)
                    (Some (match grad al with
                           | None => backward (data al) d_loss 1
                           | Some old => old + backward (data al) d_loss 1
                           end))
                    true
             else al))).

Definition d_optimizer_step : Py unit :=
  modify (fun s =>
    let '(o, ds) := d_optimizer_rule (d_optimizer s) (discriminator s) in
    set_d_optimizer o (set_discriminator (write_data (discriminator s) ds) s)).

Definition g_optimizer_step : Py unit :=
  modify (fun s =>
    let '(o, ds) := g_optimizer_rule (g_optimizer s) (generator s) in
    set_g_optimizer o (set_generator (write_data (generator s) ds) s)).

Definition training_losses : list string :=
  ["ipm_enum"; "ipm_denom"; "ipm_ratio"; "d_loss"; "constraint";
   "epf"; "eqf"; "epf2"; "eqf2"; "lagrange"]%string.

Definition validation_losses : list string := ["g_loss"%string].

(** The dictionary literal of lines 79 to 87. *)
Definition ret_losses_dict
    (ipm_enum ipm_denom ipm_ratio d_loss constraint epf eqf epf2 eqf2
     lagrange : R) : gmap string R :=
  list_to_map
    [("ipm_enum", ipm_enum); ("ipm_denom", ipm_denom);
     ("ipm_ratio", ipm_ratio); ("d_loss", d_loss);
     ("constraint", constraint); ("epf", epf); ("eqf", eqf);
     ("epf2", epf2); ("eqf2", eqf2); ("lagrange", lagrange)]%string.

Definition d_step (g_input real_input : Tensor)
  : Py (Tensor * gmap string R) :=
  (* for p in self.discriminator.parameters(): p.requires_grad = True *)
  modify (fun s =>
    set_discriminator (set_requires_grad true <$> discriminator s) s) ;;
  (* self.discriminator.zero_grad() *)
  modify (fun s => set_discriminator (zero_grad (discriminator s)) s) ;;
  (* if self.alpha is None: ... *)
  a0 <- gets alpha ;;
  match a0 with
  | None => modify (set_alpha (Some (mkVar 0 None true)))
  | Some _ => ret tt
  end ;;
  self <- get ;;
  let fw := d_forward self g_input real_input in
  al <- the_alpha ;;
  let d_loss := d_loss_graph self fw real_input in
  let d_loss_data := value (data al) d_loss in
  (* d_loss.backward() *)
  d_backward fw d_loss real_input ;;
  (* self.d_optimizer.step() *)
  d_optimizer_step ;;
  (* self.alpha.data += self.rho * self.alpha.grad.data *)
  al <- the_alpha ;;
  match grad al with
  | None => raise AttributeError
  | Some g =>
      modify (fun s =>
        set_alpha (Some (mkVar (data al + rho s * g) (grad al)
                               (requires_grad al))) s)
  end ;;
  (* self.alpha.grad.data.zero_() *)
  al <- the_alpha ;;
  match grad al with
  | None => raise AttributeError
  | Some _ =>
      modify (set_alpha (Some (mkVar (data al) (Some 0) (requires_grad al))))
  end ;;
  (* IPM *)
  let ipm_enum := _get_scalar_value (epf fw) - _get_scalar_value (eqf fw) in
  let ipm_denom :=
    sqrt (0.5 * _get_scalar_value (epf2 fw)
          + 0.5 * _get_scalar_value (eqf2 fw)) in
  ipm_ratio <- py_div ipm_enum ipm_denom ;;
  al <- the_alpha ;;
  let ret_losses :=
    ret_losses_dict ipm_enum ipm_denom ipm_ratio
      (- _get_scalar_value d_loss_data)
      (1 - _get_scalar_value (constraint fw))
      (_get_scalar_value (epf fw)) (_get_scalar_value (eqf fw))
      (_get_scalar_value (epf2 fw)) (_get_scalar_value (eqf2 fw))
      (_get_scalar_value (data al)) in
  (* self.d_iter_counter += 1 *)
  modify (fun s => set_d_iter_counter (d_iter_counter s + 1)%Z s) ;;
  ret (prediction fw, ret_losses).

(** [error.backward()] in [g_step]: the discriminator parameters do not
    require a gradient there, the generator parameters are the leaves. *)
Definition g_backward (g_input : Tensor) : Py unit :=
  gen <- gets generator ;;
  disc <- gets discriminator ;;
  if negb (existsb p_requires_grad gen || existsb p_requires_grad disc)
  then raise RuntimeError
  else
    modify (fun s =>
      set_generator
        (accumulate_all (generator s)
           (g_error_grads (datas (generator s)) (datas (discriminator s))
              g_input)) s).

Definition g_step (g_input : Tensor) : Py (Tensor * gmap string R) :=
  (* for p in self.discriminator.parameters(): p.requires_grad = False *)
  modify (fun s =>
    set_discriminator (set_requires_grad false <$> discriminator s) s) ;;
  tr <- gets training ;;
  pe <- (if tr : bool then
           modify (fun s => set_generator (zero_grad (generator s)) s) ;;
           self <- get ;;
           let prediction :=
             generator_call (datas (generator self)) g_input in
           let error :=
             - Torch.mean
                 (discriminator_call (datas (discriminator self)) prediction) in
           g_backward g_input ;;
           g_optimizer_step ;;
           ret (prediction, error)
         else
           self <- get ;;
           if _use_no_grad self then
             let prediction :=
               generator_call (datas (generator self)) g_input in
             let error :=
               - Torch.mean
                   (discriminator_call (datas (discriminator self))
                      prediction) in
             ret (prediction, error)
           else
             let prediction :=
               generator_call (datas (generator self)) g_input in
             let error :=
               - Torch.mean
                   (discriminator_call (datas (discriminator self))
                      prediction) in
             ret (prediction, error)) ;;
  ret (pe.1, ({[ "g_loss"%string := _get_scalar_value pe.2 ]} : gmap string R)).

End Steps.

(** ** Construction and scheduling *)

Section Scheduler.

Context `{C : Collaborators}.

(** Modelled from the spec: the constructor of [GANBaseTrainer]
    (dlt/train/ganbasetrainer.py is outside the sources covered here).  It
    stores its arguments, starts the counter of discriminator steps at
    zero and leaves the loss registry to the subclass.  The mode the
    trainer starts in and the [_use_no_grad] switch (which depends on the
    installed torch) are taken as arguments.  [rho] and [alpha] are the
    attributes that the subclass assigns right after. *)
Definition GANBaseTrainer_init (generator discriminator : NNModule)
    (g_optimizer d_optimizer : OptState) (d_iter : Z)
    (add_loss : option (Tensor -> Tensor -> R))
    (training use_no_grad : bool) : Trainer :=
  mkTrainer generator discriminator g_optimizer d_optimizer d_iter 0
    add_loss ∅ 0 None training use_no_grad.

(** [FisherGANTrainer.__init__] *)
Definition FisherGANTrainer_init (generator discriminator : NNModule)
    (g_optimizer d_optimizer : OptState) (rho : R) (d_iter : Z)
    (add_loss : option (Tensor -> Tensor -> R))
    (training use_no_grad : bool) : Trainer :=
  let self :=
    GANBaseTrainer_init generator discriminator g_optimizer d_optimizer
      d_iter add_loss training use_no_grad in
  (* Register losses *)
  let self :=
    set_losses (<["training"%string := training_losses]> (_losses self)) self in
  let self :=
    set_losses (<["validation"%string := validation_losses]> (_losses self))
      self in
  let self := set_rho rho self in
  let self := set_alpha None self in
  self.

(** Modelled from the spec: [set_mode], the explicit mode switch of the
    scheduler. *)
Definition set_mode (m : Mode) (self : Trainer) : Trainer :=
  set_training (match m with Training => true | Evaluation => false end)
    self.

Inductive StepKind : Type := Discriminator | Generator.

(** The step of a kind, on a batch. *)
Definition step (k : StepKind) (g_input real_input : Tensor)
  : Py (Tensor * gmap string R) :=
  match k with
  | Discriminator => d_step g_input real_input
  | Generator => g_step g_input
  end.

(** A sequence of steps on successive batches; an exception ends it. *)
Fixpoint steps (ks : list (StepKind * Tensor * Tensor))
  : Py (list (Tensor * gmap string R)) :=
  match ks with
  | [] => ret []
  | (k, g_input, real_input) :: ks =>
      r <- step k g_input real_input ;;
      rs <- steps ks ;;
      ret (r :: rs)
  end.

End Scheduler.

(** ** Facts on modules *)

Lemma datas_zero_grad m : datas (zero_grad m) = datas m.
Proof. unfold datas, zero_grad. rewrite <- list_fmap_compose. reflexivity. Qed.

Lemma flags_zero_grad m : flags (zero_grad m) = flags m.
Proof. unfold flags, zero_grad. rewrite <- list_fmap_compose. reflexivity. Qed.

Lemma datas_set_requires_grad b m :
  datas (set_requires_grad b <$> m) = datas m.
Proof. unfold datas. rewrite <- list_fmap_compose. reflexivity. Qed.

Lemma flags_set_requires_grad b m :
  flags (set_requires_grad b <$> m) = replicate (length m) b.
Proof.
  unfold flags.
  induction m as [| p m IH]; [reflexivity |].
  rewrite !fmap_cons. simpl. f_equal. exact IH.
Qed.

Lemma flags_accumulate_all m gs : flags (accumulate_all m gs) = flags m.
Proof.
  unfold flags, accumulate_all. rewrite fmap_imap.
  rewrite <- (imap_const p_requires_grad m). apply imap_ext.
  intros i p _. simpl. destruct (gs !! i) as [g |]; [| reflexivity].
  unfold accumulate. destruct (p_requires_grad p) eqn:E; simpl; congruence.
Qed.

Lemma datas_accumulate_all m gs : datas (accumulate_all m gs) = datas m.
Proof.
  unfold datas, accumulate_all. rewrite fmap_imap.
  rewrite <- (imap_const p_data m). apply imap_ext.
  intros i p _. simpl. destruct (gs !! i) as [g |]; [| reflexivity].
  unfold accumulate. destruct (p_requires_grad p); reflexivity.
Qed.

Lemma flags_write_data m ds : flags (write_data m ds) = flags m.
Proof.
  unfold flags, write_data. rewrite fmap_imap.
  rewrite <- (imap_const p_requires_grad m). apply imap_ext.
  intros i p _. simpl. destruct (ds !! i); reflexivity.
Qed.

Lemma flags_replicate_true m :
  flags m = replicate (length m) true <-> Forall (fun p => p_requires_grad p = true) m.
Proof.
  unfold flags. induction m as [| p m IH].
  - split; [constructor | reflexivity].
  - rewrite fmap_cons. simpl. split.
    + intros H. injection H as H1 H2. constructor; [exact H1 | now apply IH].
    + intros H. inversion H as [| ? ? H1 H2]; subst.
      rewrite H1. f_equal. now apply IH.
Qed.

(** ** What a discriminator step computes *)

Section DStep.

Context `{C : Collaborators}.

(** The value of [alpha] that enters a discriminator step: the stored one,
    or the 0 of the lazy initialisation. *)
Definition alpha_in (s : Trainer) : R :=
  match alpha s with Some v => data v | None => 0 end.

(** [alpha], once created, tracks gradients, and between two steps its
    accumulated gradient is absent or cleared. *)
Definition alpha_ok (s : Trainer) : Prop :=
  match alpha s with
  | None => True
  | Some v => requires_grad v = true /\ (grad v = None \/ grad v = Some 0)
  end.

(** The trainer after lines 47 to 51. *)
Definition d_prologue (s : Trainer) : Trainer :=
  let s := set_discriminator (set_requires_grad true <$> discriminator s) s in
  let s := set_discriminator (zero_grad (discriminator s)) s in
  match alpha s with
  | None => set_alpha (Some (mkVar 0 None true)) s
  | Some _ => s
  end.

Definition ipm_denom_of (fw : Forward) : R :=
  sqrt (0.5 * epf2 fw + 0.5 * eqf2 fw).

(** The trainer after line 73, when [alpha_ok] holds on entry. *)
Definition d_updated (s : Trainer) (g_input real_input : Tensor) : Trainer :=
  let s0 := d_prologue s in
  let fw := d_forward s0 g_input real_input in
  let a := alpha_in s in
  let disc1 :=
    accumulate_all (discriminator s0)
      (d_loss_grads (datas (discriminator s0)) (prediction fw) real_input
         a (rho s) (add_loss s)) in
  let od := d_optimizer_rule (d_optimizer s) disc1 in
  set_alpha
    (Some (mkVar (a + rho s * backward a (d_loss_graph s0 fw real_input) 1)
                 (Some 0) true))
    (set_d_optimizer od.1 (set_discriminator (write_data disc1 od.2) s0)).

Definition d_metrics (s : Trainer) (g_input real_input : Tensor)
  : gmap string R :=
  let fw := d_forward s g_input real_input in
  let a := alpha_in s in
  let gl := d_loss_graph s fw real_input in
  ret_losses_dict (epf fw - eqf fw) (ipm_denom_of fw)
    ((epf fw - eqf fw) / ipm_denom_of fw)
    (- value a gl) (1 - constraint fw)
    (epf fw) (eqf fw) (epf2 fw) (eqf2 fw)
    (a + rho s * backward a gl 1).

(** The fields that no step assigns. *)
Definition frame (s s' : Trainer) : Prop :=
  d_iter s' = d_iter s /\ add_loss s' = add_loss s /\
  _losses s' = _losses s /\ rho s' = rho s /\
  training s' = training s /\ _use_no_grad s' = _use_no_grad s.

End DStep.

(** Running a method body on a trainer given by its fields. *)
Ltac py_eval :=
  cbv beta iota zeta delta
    [d_step g_step d_prologue d_backward g_backward d_optimizer_step
     g_optimizer_step the_alpha py_div _get_scalar_value
     bind modify gets get ret raise d_forward d_loss_graph
     set_generator set_discriminator set_g_optimizer set_d_optimizer
     set_d_iter_counter set_losses set_rho set_alpha set_training
     generator discriminator g_optimizer d_optimizer d_iter d_iter_counter
     add_loss _losses rho alpha training _use_no_grad
     data grad requires_grad
     prediction vphi_fake vphi_real epf eqf epf2 eqf2 constraint
     fst snd orb negb].

Section DStepFacts.

Context `{C : Collaborators}.

Lemma d_forward_prologue s g_input real_input :
  d_forward (d_prologue s) g_input real_input = d_forward s g_input real_input.
Proof.
  unfold d_prologue, d_forward. simpl.
  destruct (alpha s); simpl;
    rewrite !datas_zero_grad, !datas_set_requires_grad; reflexivity.
Qed.

Lemma d_loss_graph_prologue s fw real_input :
  d_loss_graph (d_prologue s) fw real_input = d_loss_graph s fw real_input.
Proof. unfold d_prologue, d_loss_graph. simpl. destruct (alpha s); reflexivity. Qed.

Lemma frame_refl s : frame s s.
Proof. repeat split. Qed.

Lemma frame_trans s1 s2 s3 : frame s1 s2 -> frame s2 s3 -> frame s1 s3.
Proof. unfold frame. intuition congruence. Qed.

Lemma flags_after_d disc gs ds :
  flags (write_data (accumulate_all (zero_grad (set_requires_grad true <$> disc)) gs) ds)
  = replicate (length disc) true.
Proof.
  rewrite flags_write_data, flags_accumulate_all, flags_zero_grad.
  apply flags_set_requires_grad.
Qed.

Lemma d_step_run s g_input real_input :
  alpha_ok s ->
  d_step g_input real_input s =
    if Req_dec_T (ipm_denom_of (d_forward s g_input real_input)) 0
    then (d_updated s g_input real_input, inl ZeroDivisionError)
    else (set_d_iter_counter (d_iter_counter s + 1)%Z
            (d_updated s g_input real_input),
          inr (prediction (d_forward s g_input real_input),
               d_metrics s g_input real_input)).
Proof.
  intros Hok. unfold alpha_ok in Hok.
  destruct s as [gen disc go do di dc al ls rh a tr ung].
  destruct a as [[ad ag arg] |]; simpl in Hok;
    [destruct Hok as [-> [-> | ->]] | ];
    unfold d_updated, d_metrics; py_eval;
    rewrite !datas_zero_grad, !datas_set_requires_grad;
    destruct (d_optimizer_rule _ _) as [o ds];
    destruct (Req_dec_T _ _); rewrite ?Rplus_0_l; reflexivity.
Qed.

Lemma d_step_effect s g_input real_input s' r :
  d_step g_input real_input s = (s', r) ->
  generator s' = generator s /\ g_optimizer s' = g_optimizer s /\
  frame s s' /\
  flags (discriminator s') = replicate (length (discriminator s)) true /\
  match r with
  | inr (p, m) =>
      let fw := d_forward s g_input real_input in
      d_iter_counter s' = (d_iter_counter s + 1)%Z /\
      p = prediction fw /\
      ipm_denom_of fw <> 0 /\
      exists v,
        alpha s' = Some v /\
        m = ret_losses_dict (epf fw - eqf fw) (ipm_denom_of fw)
              ((epf fw - eqf fw) / ipm_denom_of fw)
              (- value (alpha_in s) (d_loss_graph s fw real_input))
              (1 - constraint fw) (epf fw) (eqf fw) (epf2 fw) (eqf2 fw)
              (data v)
  | inl _ => d_iter_counter s' = d_iter_counter s
  end.
Proof.
  destruct s as [gen disc go do di dc al ls rh a tr ung].
  unfold frame.
  destruct a as [[ad ag [|]] |]; py_eval.
  - rewrite !datas_zero_grad, !datas_set_requires_grad;
    destruct (d_optimizer_rule _ _) as [o ds];
    destruct ag; destruct (Req_dec_T _ _); intros [= <- <-]; py_eval;
    rewrite ?flags_after_d; repeat split; eauto.
  - destruct (existsb _ _); py_eval.
    + rewrite !datas_zero_grad, !datas_set_requires_grad;
      destruct (d_optimizer_rule _ _) as [o ds];
      destruct ag; py_eval; try destruct (Req_dec_T _ _);
      intros [= <- <-]; py_eval;
      rewrite ?flags_after_d; repeat split; eauto.
    + intros [= <- <-]; py_eval.
      rewrite flags_zero_grad, flags_set_requires_grad. repeat split.
  - rewrite !datas_zero_grad, !datas_set_requires_grad;
    destruct (d_optimizer_rule _ _) as [o ds];
    destruct (Req_dec_T _ _); intros [= <- <-]; py_eval;
    rewrite ?flags_after_d; repeat split; eauto.
Qed.

End DStepFacts.

(** ** What a generator step computes *)

Section GStepFacts.

Context `{C : Collaborators}.

Lemma existsb_frozen m :
  existsb p_requires_grad (set_requires_grad false <$> m) = false.
Proof.
  induction m as [| p m IH]; [reflexivity |].
  rewrite fmap_cons. simpl. exact IH.
Qed.

Lemma existsb_zero_grad m :
  existsb p_requires_grad (zero_grad m) = existsb p_requires_grad m.
Proof.
  unfold zero_grad. induction m as [| p m IH]; [reflexivity |].
  rewrite fmap_cons. simpl. now rewrite IH.
Qed.

(** The generator error of lines 97, 104 and 107. *)
Definition g_error (s : Trainer) (g_input : Tensor) : R :=
  - Torch.mean
      (discriminator_call (datas (discriminator s))
         (generator_call (datas (generator s)) g_input)).

(** The generator after the training branch of [g_step]. *)
Definition g_trained (s : Trainer) (g_input : Tensor)
  : OptState * NNModule :=
  let gen1 :=
    accumulate_all (zero_grad (generator s))
      (g_error_grads (datas (generator s)) (datas (discriminator s))
         g_input) in
  let od := g_optimizer_rule (g_optimizer s) gen1 in
  (od.1, write_data gen1 od.2).

Lemma g_step_run s g_input :
  g_step g_input s =
    let s0 :=
      set_discriminator (set_requires_grad false <$> discriminator s) s in
    let out :=
      inr (generator_call (datas (generator s)) g_input,
           ({[ "g_loss"%string := g_error s g_input ]} : gmap string R)) in
    if training s then
      if existsb p_requires_grad (generator s)
      then (set_g_optimizer (g_trained s g_input).1
              (set_generator (g_trained s g_input).2 s0), out)
      else (set_generator (zero_grad (generator s)) s0, inl RuntimeError)
    else (s0, out).
Proof.
  destruct s as [gen disc go do di dc al ls rh a tr ung].
  unfold g_trained, g_error. destruct tr; py_eval.
  - rewrite existsb_frozen, existsb_zero_grad.
    destruct (existsb p_requires_grad gen); py_eval; [| reflexivity].
    rewrite !datas_zero_grad, !datas_set_requires_grad.
    destruct (g_optimizer_rule _ _) as [o ds]. reflexivity.
  - rewrite !datas_set_requires_grad. destruct ung; reflexivity.
Qed.

Lemma g_step_effect s g_input s' r :
  g_step g_input s = (s', r) ->
  alpha s' = alpha s /\ d_optimizer s' = d_optimizer s /\
  d_iter_counter s' = d_iter_counter s /\ frame s s' /\
  flags (discriminator s') = replicate (length (discriminator s)) false /\
  datas (discriminator s') = datas (discriminator s) /\
  flags (generator s') = flags (generator s) /\
  (training s = false -> generator s' = generator s /\
                         g_optimizer s' = g_optimizer s) /\
  match r with
  | inr (p, m) =>
      p = generator_call (datas (generator s)) g_input /\
      m = {[ "g_loss"%string := g_error s g_input ]}
  | inl e => e = RuntimeError /\ training s = true
  end.
Proof.
  rewrite g_step_run. unfold frame.
  destruct s as [gen disc go do di dc al ls rh a tr ung]. py_eval.
  destruct tr; [destruct (existsb p_requires_grad gen) |];
    intros [= <- <-]; py_eval;
    rewrite ?flags_set_requires_grad, ?datas_set_requires_grad;
    unfold g_trained; py_eval;
    rewrite ?flags_write_data, ?flags_accumulate_all, ?flags_zero_grad;
    repeat split; try discriminate; auto.
Qed.

End GStepFacts.

(** ** The loss as a function of the multiplier *)

Section Loss.

Context `{C : Collaborators}.

Definition extra_loss (s : Trainer) (fw : Forward) (real_input : Tensor) : R :=
  match add_loss s with
  | Some f => f (prediction fw) real_input
  | None => 0
  end.

Lemma d_loss_value s fw real_input a :
  value a (d_loss_graph s fw real_input)
  = - (epf fw - eqf fw + a * constraint fw
       - rho s / 2 * constraint fw ^ 2)
    + extra_loss s fw real_input.
Proof.
  unfold d_loss_graph, extra_loss. destruct (add_loss s); simpl; lra.
Qed.

Lemma d_loss_backward s fw real_input a :
  backward a (d_loss_graph s fw real_input) 1 = - constraint fw.
Proof.
  unfold d_loss_graph. destruct (add_loss s); simpl; lra.
Qed.

(** The dictionary of a discriminator step, key by key. *)
Lemma ret_losses_dict_dom x1 x2 x3 x4 x5 x6 x7 x8 x9 x10 :
  dom (ret_losses_dict x1 x2 x3 x4 x5 x6 x7 x8 x9 x10)
  = list_to_set training_losses.
Proof. unfold ret_losses_dict. rewrite dom_list_to_map_L. reflexivity. Qed.

Lemma training_losses_distinct : NoDup training_losses.
Proof. apply (bool_decide_unpack (NoDup training_losses)). vm_compute. exact I. Qed.

(** [alpha_ok] is an invariant of the trainer. *)
Lemma alpha_ok_init gen disc go do rho0 di al tr ung :
  alpha_ok (FisherGANTrainer_init gen disc go do rho0 di al tr ung).
Proof. exact I. Qed.

Lemma alpha_after_d_step s g_input real_input :
  alpha_ok s ->
  alpha (d_step g_input real_input s).1
  = Some (mkVar (alpha_in s
                 + rho s * - constraint (d_forward s g_input real_input))
                (Some 0) true).
Proof.
  intros Hok. rewrite (d_step_run _ _ _ Hok).
  destruct (Req_dec_T _ _); simpl; unfold d_updated; simpl;
    rewrite d_loss_backward, d_forward_prologue; reflexivity.
Qed.

(** The discriminator after a discriminator step, whatever the division
    does. *)
Lemma zero_division_free_state s g_input real_input :
  alpha_ok s ->
  let grads :=
    d_loss_grads (datas (discriminator s))
      (prediction (d_forward s g_input real_input)) real_input
      (alpha_in s) (rho s) (add_loss s) in
  let disc1 :=
    accumulate_all (zero_grad (set_requires_grad true <$> discriminator s))
      grads in
  discriminator (d_step g_input real_input s).1
  = write_data disc1 (d_optimizer_rule (d_optimizer s) disc1).2 /\
  d_optimizer (d_step g_input real_input s).1
  = (d_optimizer_rule (d_optimizer s) disc1).1.
Proof.
  intros Hok. cbv zeta. rewrite (d_step_run _ _ _ Hok).
  destruct s as [gen disc go do di dc al ls rh a tr ung].
  destruct (Req_dec_T _ _); cbn [fst]; unfold d_updated, d_prologue;
    py_eval; destruct a; py_eval;
    rewrite ?datas_zero_grad, ?datas_set_requires_grad; split; reflexivity.
Qed.

Lemma alpha_ok_d_step s g_input real_input :
  alpha_ok s -> alpha_ok (d_step g_input real_input s).1.
Proof.
  intros Hok. unfold alpha_ok at 1.
  rewrite (alpha_after_d_step _ _ _ Hok). simpl. auto.
Qed.

Lemma alpha_g_step s g_input : alpha (g_step g_input s).1 = alpha s.
Proof.
  destruct (g_step g_input s) as [s' r] eqn:E.
  apply g_step_effect in E. simpl. tauto.
Qed.

Lemma alpha_ok_g_step s g_input :
  alpha_ok s -> alpha_ok (g_step g_input s).1.
Proof. unfold alpha_ok. now rewrite alpha_g_step. Qed.

Lemma alpha_ok_step k s g_input real_input :
  alpha_ok s -> alpha_ok (step k g_input real_input s).1.
Proof.
  destruct k; simpl; [apply alpha_ok_d_step | apply alpha_ok_g_step].
Qed.

(** The first step of a sequence, unfolded. *)
Lemma steps_cons k g_input real_input ks s :
  steps ((k, g_input, real_input) :: ks) s =
    match step k g_input real_input s with
    | (s1, inr r) =>
        match steps ks s1 with
        | (s2, inr rs) => (s2, inr (r :: rs))
        | (s2, inl e) => (s2, inl e)
        end
    | (s1, inl e) => (s1, inl e)
    end.
Proof.
  simpl. unfold bind, ret.
  destruct (step k g_input real_input s) as [s1 [e | r]]; [reflexivity |].
  destruct (steps ks s1) as [s2 [e | rs]]; reflexivity.
Qed.

Lemma alpha_ok_steps ks s : alpha_ok s -> alpha_ok (steps ks s).1.
Proof.
  revert s. induction ks as [| [[k gi] ri] ks IH]; intros s Hok.
  - exact Hok.
  - rewrite steps_cons.
    pose proof (alpha_ok_step k s gi ri Hok) as H1.
    destruct (step k gi ri s) as [s1 [e | r]]; [exact H1 |].
    specialize (IH s1 H1).
    destruct (steps ks s1) as [s2 [e | rs]]; exact IH.
Qed.

Lemma alpha_step_present k s g_input real_input :
  alpha_ok s -> is_Some (alpha s) ->
  is_Some (alpha (step k g_input real_input s).1).
Proof.
  intros Hok Hs. destruct k; simpl.
  - rewrite (alpha_after_d_step _ _ _ Hok). eauto.
  - now rewrite alpha_g_step.
Qed.

Lemma alpha_steps_present ks s :
  alpha_ok s -> is_Some (alpha s) -> is_Some (alpha (steps ks s).1).
Proof.
  revert s. induction ks as [| [[k gi] ri] ks IH]; intros s Hok Hs.
  - exact Hs.
  - rewrite steps_cons.
    pose proof (alpha_ok_step k s gi ri Hok) as H1.
    pose proof (alpha_step_present k s gi ri Hok Hs) as H2.
    destruct (step k gi ri s) as [s1 [e | r]]; [exact H2 |].
    specialize (IH s1 H1 H2).
    destruct (steps ks s1) as [s2 [e | rs]]; exact IH.
Qed.

End Loss.

(** ** A concrete trainer

    Networks that return their input, no parameter gradients and an
    optimizer that leaves the data as it is: with the generator input [1]
    and the real batch [2] the critic outputs are 1 on the prediction and 2
    on the real batch, a batch of size one. *)

Definition identity_networks : Collaborators :=
  {| OptState := unit;
     generator_call := fun _ x => x;
     discriminator_call := fun _ x => x;
     d_loss_grads := fun _ _ _ _ _ _ => [];
     g_error_grads := fun _ _ _ => [];
     g_optimizer_rule := fun o m => (o, datas m);
     d_optimizer_rule := fun o m => (o, datas m) |}.

Section Concrete.

#[local] Existing Instance identity_networks.

(** [FisherGANTrainer(gen, disc, g_optim, d_optim, rho=1.0, d_iter=2)], in
    training mode. *)
Definition fresh : Trainer :=
  FisherGANTrainer_init [mkParam [0] None true] [mkParam [1] None true]
    tt tt 1 2 None true true.

Lemma mean_singleton x : Torch.mean [x] = x.
Proof. unfold Torch.mean, Torch.sum. simpl. field. Qed.

Lemma identity_forward (s : Trainer) (x y : R) :
  d_forward s [x] [y]
  = mkForward [x] [x] [y] y x (y ^ 2) (x ^ 2) (1 - (0.5 * y ^ 2 + 0.5 * x ^ 2)).
Proof.
  unfold d_forward. simpl. destruct (_use_no_grad s);
    unfold Torch.sq; rewrite !fmap_cons, !fmap_nil, !mean_singleton;
    reflexivity.
Qed.

Lemma identity_denom (s : Trainer) (x y : R) :
  ipm_denom_of (d_forward s [x] [y]) = sqrt (0.5 * y ^ 2 + 0.5 * x ^ 2).
Proof. rewrite identity_forward. reflexivity. Qed.

Lemma identity_denom_12 (s : Trainer) :
  ipm_denom_of (d_forward s [1] [2]) <> 0.
Proof.
  rewrite identity_denom. apply Rgt_not_eq, sqrt_lt_R0. lra.
Qed.

Lemma identity_denom_00 (s : Trainer) :
  ipm_denom_of (d_forward s [0] [0]) = 0.
Proof.
  rewrite identity_denom.
  replace (0.5 * 0 ^ 2 + 0.5 * 0 ^ 2) with 0 by lra. apply sqrt_0.
Qed.

(** A discriminator step on the batch ([1], [2]) returns. *)
Lemma identity_d_step_returns (s : Trainer) :
  alpha_ok s ->
  d_step [1] [2] s
  = (set_d_iter_counter (d_iter_counter s + 1)%Z (d_updated s [1] [2]),
     inr (prediction (d_forward s [1] [2]), d_metrics s [1] [2])).
Proof.
  intros Hok. rewrite (d_step_run _ _ _ Hok).
  destruct (Req_dec_T _ _) as [E | _]; [| reflexivity].
  now apply identity_denom_12 in E.
Qed.

(** A batch of two: the generator input ([2], [4]) and the real batch
    ([1], [3]). *)
Lemma identity_denom_batch (s : Trainer) :
  ipm_denom_of (d_forward s [2; 4] [1; 3]) <> 0.
Proof.
  unfold ipm_denom_of, d_forward. cbn [generator_call discriminator_call
    identity_networks epf2 eqf2].
  destruct (_use_no_grad s); apply Rgt_not_eq, sqrt_lt_R0;
    unfold Torch.mean, Torch.sum, Torch.sq; cbn; lra.
Qed.

Lemma identity_d_step_returns_batch (s : Trainer) :
  alpha_ok s ->
  d_step [2; 4] [1; 3] s
  = (set_d_iter_counter (d_iter_counter s + 1)%Z (d_updated s [2; 4] [1; 3]),
     inr (prediction (d_forward s [2; 4] [1; 3]), d_metrics s [2; 4] [1; 3])).
Proof.
  intros Hok. rewrite (d_step_run _ _ _ Hok).
  destruct (Req_dec_T _ _) as [E | _]; [| reflexivity].
  now apply identity_denom_batch in E.
Qed.

(** A discriminator step on the batch ([0], [0]) raises. *)
Lemma identity_d_step_raises (s : Trainer) :
  alpha_ok s ->
  d_step [0] [0] s = (d_updated s [0] [0], inl ZeroDivisionError).
Proof.
  intros Hok. rewrite (d_step_run _ _ _ Hok).
  destruct (Req_dec_T _ _) as [_ | N]; [reflexivity |].
  now destruct N; apply identity_denom_00.
Qed.

End Concrete.

(** ** The discriminator step: loss and metrics *)

Section DiscriminatorClaims.

Context `{C : Collaborators}.

(** The multiplier after the lazy initialisation of lines 50 and 51. *)
Lemma alpha_prologue s :
  alpha (d_prologue s) = Some (default (mkVar 0 None true) (alpha s)).
Proof.
  destruct s as [gen disc go do di dc al ls rh a tr ung].
  unfold d_prologue. simpl. destruct a; reflexivity.
Qed.

(** C1.  On a discriminator step without extra loss, the loss computed
    inside the step is
    [-(epf - eqf + alpha*constraint - (rho/2)*constraint^2)], where [epf]
    and [eqf] are the batch means (the sum of the entries over their
    number) of the critic on the real batch and on the generator
    prediction, [epf2] and [eqf2] the batch means of the squares of these
    outputs, [constraint = 1 - (0.5*epf2 + 0.5*eqf2)], and [alpha] the value
    of the multiplier that enters the step; the metric ['d_loss'] is the
    negation of that loss. *)
Theorem d_loss_augmented_lagrangian s g_input real_input s' p m :
  add_loss s = None ->
  d_step g_input real_input s = (s', inr (p, m)) ->
  let self := d_prologue s in
  let fw := d_forward self g_input real_input in
  let batch_mean := fun t : Tensor => foldr Rplus 0 t / INR (length t) in
  let squares := fun t : Tensor => (fun x => x ^ 2) <$> t in
  let critic_real := discriminator_call (datas (discriminator s)) real_input in
  let critic_fake := discriminator_call (datas (discriminator s)) p in
  let a := alpha_in s in
  let d_loss :=
    - (batch_mean critic_real - batch_mean critic_fake
       + a * (1 - (0.5 * batch_mean (squares critic_real)
                   + 0.5 * batch_mean (squares critic_fake)))
       - rho s / 2
         * (1 - (0.5 * batch_mean (squares critic_real)
                 + 0.5 * batch_mean (squares critic_fake))) ^ 2) in
  p = generator_call (datas (generator s)) g_input /\
  epf fw = batch_mean critic_real /\
  eqf fw = batch_mean critic_fake /\
  epf2 fw = batch_mean (squares critic_real) /\
  eqf2 fw = batch_mean (squares critic_fake) /\
  constraint fw = 1 - (0.5 * epf2 fw + 0.5 * eqf2 fw) /\
  data <$> alpha self = Some a /\
  value a (d_loss_graph self fw real_input) = d_loss /\
  m !! "d_loss"%string = Some (- d_loss).
Proof.
  intros Hadd Hrun; cbv zeta.
  rewrite d_loss_graph_prologue, d_forward_prologue.
  apply d_step_effect in Hrun as (_ & _ & _ & _ & _ & Hp & _ & v & _ & Hm).
  cbv zeta in Hp, Hm.
  assert (Hpred : p = generator_call (datas (generator s)) g_input).
  { rewrite Hp. unfold d_forward. simpl. now destruct (_use_no_grad s). }
  assert (Hval :
    value (alpha_in s)
      (d_loss_graph s (d_forward s g_input real_input) real_input)
    = - (epf (d_forward s g_input real_input)
         - eqf (d_forward s g_input real_input)
         + alpha_in s * constraint (d_forward s g_input real_input)
         - rho s / 2 * constraint (d_forward s g_input real_input) ^ 2)).
  { rewrite d_loss_value. unfold extra_loss. rewrite Hadd. lra. }
  assert (Hfw :
    d_forward s g_input real_input
    = let critic_real :=
        discriminator_call (datas (discriminator s)) real_input in
      let critic_fake := discriminator_call (datas (discriminator s)) p in
      let e2 := foldr Rplus 0 ((fun x => x ^ 2) <$> critic_real)
                / INR (length ((fun x => x ^ 2) <$> critic_real)) in
      let q2 := foldr Rplus 0 ((fun x => x ^ 2) <$> critic_fake)
                / INR (length ((fun x => x ^ 2) <$> critic_fake)) in
      mkForward p critic_fake critic_real
        (foldr Rplus 0 critic_real / INR (length critic_real))
        (foldr Rplus 0 critic_fake / INR (length critic_fake))
        e2 q2 (1 - (0.5 * e2 + 0.5 * q2))).
  { rewrite Hpred. unfold d_forward. now destruct (_use_no_grad s). }
  split; [exact Hpred |].
  split; [rewrite Hfw; reflexivity |].
  split; [rewrite Hfw; reflexivity |].
  split; [rewrite Hfw; reflexivity |].
  split; [rewrite Hfw; reflexivity |].
  split; [reflexivity |].
  split.
  { rewrite alpha_prologue. unfold alpha_in.
    destruct (alpha s) as [[ad ag arg] |]; reflexivity. }
  split; [rewrite Hval, Hfw; reflexivity |].
  rewrite Hm, Hval, Hfw. reflexivity.
Qed.

(** C4.  The metrics map of a discriminator step has exactly the ten keys
    [ipm_enum], [ipm_denom], [ipm_ratio], [d_loss], [constraint], [epf],
    [eqf], [epf2], [eqf2] and [lagrange]; the metrics map of a generator
    step has exactly the key [g_loss]. *)
Theorem metric_key_sets sd g_input real_input sd' pd md sg g_input' sg' pg mg :
  d_step g_input real_input sd = (sd', inr (pd, md)) ->
  g_step g_input' sg = (sg', inr (pg, mg)) ->
  dom md
  = list_to_set
      ["ipm_enum"; "ipm_denom"; "ipm_ratio"; "d_loss"; "constraint";
       "epf"; "eqf"; "epf2"; "eqf2"; "lagrange"]%string /\
  size md = 10%nat /\
  dom mg = {[ "g_loss"%string ]} /\
  size mg = 1%nat.
Proof.
  intros Hd Hg.
  apply d_step_effect in Hd as (_ & _ & _ & _ & _ & _ & _ & v & _ & ->).
  apply g_step_effect in Hg as (_ & _ & _ & _ & _ & _ & _ & _ & _ & ->).
  split; [apply ret_losses_dict_dom |].
  split.
  { rewrite <- size_dom, ret_losses_dict_dom.
    rewrite (size_list_to_set _ training_losses_distinct). reflexivity. }
  split; [apply dom_singleton_L | apply map_size_singleton].
Qed.


End DiscriminatorClaims.

(** ** The Lagrange multiplier *)

Section MultiplierClaims.

Context `{C : Collaborators}.

Lemma alpha_ok_set_mode md s : alpha_ok s -> alpha_ok (set_mode md s).
Proof. intros H. exact H. Qed.

(** C2.  On every discriminator step, in training and in evaluation mode
    alike, the multiplier is updated once by
    [alpha <- alpha + rho * g], where [g] is the derivative of [d_loss] in
    [alpha] that the backward pass leaves in [alpha.grad], and the
    accumulated gradient of [alpha] is zero when the step ends. *)
Theorem dual_ascent_in_every_mode (md : Mode) s g_input real_input :
  alpha_ok s ->
  let self := set_mode md s in
  let fw := d_forward self g_input real_input in
  let d_loss := fun a => value a (d_loss_graph self fw real_input) in
  mode self = md /\
  exists g,
    derivable_pt_lim d_loss (alpha_in s) g /\
    g = backward (alpha_in s) (d_loss_graph self fw real_input) 1 /\
    alpha (d_step g_input real_input self).1
    = Some (mkVar (alpha_in s + rho s * g) (Some 0) true).
Proof.
  intros Hok self fw d_loss. split; [now destruct md |].
  exists (backward (alpha_in s) (d_loss_graph self fw real_input) 1).
  split; [apply backward_derivative |]. split; [reflexivity |].
  rewrite (alpha_after_d_step self g_input real_input
             (alpha_ok_set_mode md s Hok)).
  rewrite d_loss_backward. reflexivity.
Qed.

(** C3.  [alpha] is absent in a constructed trainer.  A discriminator step
    on a trainer without [alpha] runs as on the trainer that holds the
    variable 0 with [requires_grad] set, and no step ends with an exception
    other than that of the division.  After a discriminator step [alpha] is
    present and holds the entering value plus one update; a generator step
    leaves it as it is, and so it stays present over any further steps. *)
Theorem alpha_lifecycle gen disc go do rho0 di al tr ung
    s g_input real_input ks :
  alpha_ok s ->
  alpha (FisherGANTrainer_init gen disc go do rho0 di al tr ung) = None /\
  match alpha s with
  | None =>
      d_step g_input real_input s
      = d_step g_input real_input (set_alpha (Some (mkVar 0 None true)) s)
  | Some v => alpha_in s = data v
  end /\
  match (d_step g_input real_input s).2 with
  | inl e => e = ZeroDivisionError
  | inr _ => True
  end /\
  alpha (d_step g_input real_input s).1
  = Some (mkVar (alpha_in s
                 + rho s * - constraint (d_forward s g_input real_input))
                (Some 0) true) /\
  alpha (g_step g_input s).1 = alpha s /\
  is_Some (alpha (steps ks (d_step g_input real_input s).1).1).
Proof.
  intros Hok. split; [reflexivity |]. split.
  { destruct (alpha s) as [v |] eqn:E; [unfold alpha_in; now rewrite E |].
    rewrite (d_step_run _ _ _ Hok).
    rewrite (d_step_run (set_alpha _ s)); [| unfold alpha_ok; simpl; auto].
    destruct s as [gen' disc' go' do' di' dc' al' ls' rh' a' tr' ung'].
    simpl in E. subst a'. reflexivity. }
  split.
  { rewrite (d_step_run _ _ _ Hok). now destruct (Req_dec_T _ _). }
  split; [apply (alpha_after_d_step _ _ _ Hok) |].
  split; [apply alpha_g_step |].
  apply alpha_steps_present.
  - now apply alpha_ok_d_step.
  - rewrite (alpha_after_d_step _ _ _ Hok). eauto.
Qed.

(** C10, as the code has it.  The value reported under ['lagrange'] is
    the value of [alpha] after the dual-ascent update of the same step: the
    value that entered the loss plus [rho] times the gradient that the
    backward pass of [d_loss] leaves in [alpha], which is minus the
    constraint residual. *)
Theorem lagrange_is_updated_alpha s g_input real_input s' p m :
  alpha_ok s ->
  d_step g_input real_input s = (s', inr (p, m)) ->
  let fw := d_forward s g_input real_input in
  exists v,
    alpha s' = Some v /\
    m !! "lagrange"%string = Some (data v) /\
    data v = alpha_in s + rho s * backward (alpha_in s)
                                     (d_loss_graph s fw real_input) 1 /\
    backward (alpha_in s) (d_loss_graph s fw real_input) 1 = - constraint fw /\
    data v = alpha_in s + rho s * - constraint fw.
Proof.
  intros Hok Hrun. cbv zeta.
  pose proof (alpha_after_d_step s g_input real_input Hok) as Ha.
  rewrite Hrun in Ha. cbn [fst] in Ha.
  apply d_step_effect in Hrun as (_ & _ & _ & _ & _ & _ & _ & v & Hv & ->).
  exists v. split; [exact Hv |]. split; [reflexivity |].
  rewrite Hv in Ha.
  assert (Hdata :
    data v = alpha_in s
             + rho s * - constraint (d_forward s g_input real_input))
    by (apply (f_equal (fun o => default 0 (data <$> o))) in Ha; exact Ha).
  rewrite d_loss_backward.
  split; [exact Hdata |]. split; [reflexivity | exact Hdata].
Qed.

(** C6, as the code has it.  The metrics [ipm_enum] and [ipm_denom] are
    [epf - eqf] and [sqrt(0.5*epf2 + 0.5*eqf2)].  When [ipm_denom] is
    positive the step returns and [ipm_ratio] is their quotient; when it is
    zero (on critic outputs that are not empty) the unguarded division
    raises ZeroDivisionError and the step returns no metrics: the
    optimizer step of the discriminator and the update of [alpha] have been
    applied by then, and the counter is not incremented. *)
Theorem ipm_ratio_or_zero_division s g_input real_input :
  alpha_ok s ->
  let fw := d_forward s g_input real_input in
  vphi_real fw <> [] -> vphi_fake fw <> [] ->
  let ipm_enum := epf fw - eqf fw in
  let ipm_denom := sqrt (0.5 * epf2 fw + 0.5 * eqf2 fw) in
  let out := d_step g_input real_input s in
  let disc1 :=
    accumulate_all (zero_grad (set_requires_grad true <$> discriminator s))
      (d_loss_grads (datas (discriminator s)) (prediction fw) real_input
         (alpha_in s) (rho s) (add_loss s)) in
  let od := d_optimizer_rule (d_optimizer s) disc1 in
  (0 < ipm_denom /\
   exists s' m,
     out = (s', inr (prediction fw, m)) /\
     m !! "ipm_enum"%string = Some ipm_enum /\
     m !! "ipm_denom"%string = Some ipm_denom /\
     m !! "ipm_ratio"%string = Some (ipm_enum / ipm_denom))
  \/
  (ipm_denom = 0 /\
   out.2 = inl ZeroDivisionError /\
   discriminator out.1 = write_data disc1 od.2 /\
   d_optimizer out.1 = od.1 /\
   alpha out.1
   = Some (mkVar (alpha_in s + rho s * - constraint fw) (Some 0) true) /\
   d_iter_counter out.1 = d_iter_counter s).
Proof.
  intros Hok fw _ _ ipm_enum ipm_denom out disc1 od.
  destruct (zero_division_free_state s g_input real_input Hok) as [Hd Ho].
  pose proof (alpha_after_d_step s g_input real_input Hok) as Ha.
  cbv zeta in Hd, Ho. fold fw disc1 od out in Hd, Ho, Ha.
  pose proof (d_step_run s g_input real_input Hok) as Hrun.
  fold fw out in Hrun. change (ipm_denom_of fw) with ipm_denom in Hrun.
  destruct (Req_dec_T ipm_denom 0) as [E | N].
  - right. split; [exact E |].
    split; [now rewrite Hrun |].
    split; [exact Hd |]. split; [exact Ho |]. split; [exact Ha |].
    destruct (d_step_effect s g_input real_input _ _ Hrun) as (_ & _ & _ & _ & Hc).
    rewrite Hrun. exact Hc.
  - left. split.
    + pose proof (sqrt_pos (0.5 * epf2 fw + 0.5 * eqf2 fw)). fold ipm_denom in H.
      lra.
    + eexists _, _. split; [exact Hrun |].
      unfold d_metrics. fold fw. repeat split.
Qed.

End MultiplierClaims.

(** ** Counter, frame and trainability *)

Section SchedulingClaims.

Context `{C : Collaborators}.

(** The number of discriminator steps in a sequence of steps. *)
Fixpoint discriminator_steps (ks : list (StepKind * Tensor * Tensor)) : Z :=
  match ks with
  | [] => 0
  | (Discriminator, _, _) :: ks => 1 + discriminator_steps ks
  | (Generator, _, _) :: ks => discriminator_steps ks
  end.

Lemma step_effect k g_input real_input s s' r :
  step k g_input real_input s = (s', r) ->
  frame s s' /\
  match r with
  | inr _ =>
      d_iter_counter s'
      = (d_iter_counter s
         + match k with Discriminator => 1 | Generator => 0 end)%Z
  | inl _ => d_iter_counter s' = d_iter_counter s
  end.
Proof.
  destruct k; simpl; intros H.
  - apply d_step_effect in H as (_ & _ & Hf & _ & Hr).
    split; [exact Hf |]. destruct r as [e | [p m]]; [exact Hr | apply Hr].
  - apply g_step_effect in H as (_ & _ & Hc & Hf & _).
    split; [exact Hf |]. destruct r; lia.
Qed.

(** What a sequence of steps leaves: when every step returns, the counter
    has grown by the number of discriminator steps; when a step raises, the
    steps before it have returned and only they are counted. *)
Lemma steps_outcome ks s :
  frame s (steps ks s).1 /\
  match (steps ks s).2 with
  | inr rs =>
      d_iter_counter (steps ks s).1
      = (d_iter_counter s + discriminator_steps ks)%Z /\
      length rs = length ks
  | inl e =>
      exists n k g_input real_input sn rs,
        ks !! n = Some (k, g_input, real_input) /\
        steps (take n ks) s = (sn, inr rs) /\
        step k g_input real_input sn = ((steps ks s).1, inl e) /\
        d_iter_counter (steps ks s).1
        = (d_iter_counter s + discriminator_steps (take n ks))%Z
  end.
Proof.
  revert s. induction ks as [| [[k gi] ri] ks IH]; intros s.
  - split; [apply frame_refl |]. simpl. split; [lia | reflexivity].
  - rewrite steps_cons.
    destruct (step k gi ri s) as [s1 [e | r1]] eqn:E1;
      pose proof (step_effect _ _ _ _ _ _ E1) as [Hf1 Hc1].
    + split; [exact Hf1 |]. cbn [fst snd].
      exists 0%nat, k, gi, ri, s, []. split; [reflexivity |].
      split; [reflexivity |]. split; [exact E1 |]. simpl. lia.
    + specialize (IH s1).
      destruct (steps ks s1) as [s2 [e | rs]] eqn:E2; cbn [fst snd] in *;
        destruct IH as [Hf2 IH];
        (split; [exact (frame_trans _ _ _ Hf1 Hf2) |]).
      * destruct IH as (n & k' & gi' & ri' & sn & rs & Hn & Hs & Hk & Hc).
        exists (S n), k', gi', ri', sn, (r1 :: rs).
        split; [exact Hn |]. split.
        { cbn [take]. rewrite steps_cons, E1, Hs. reflexivity. }
        split; [exact Hk |].
        cbn [take]. rewrite Hc, Hc1. destruct k; simpl; lia.
      * destruct IH as [Hc2 Hl]. split.
        -- rewrite Hc2, Hc1. destruct k; simpl; lia.
        -- simpl. now rewrite Hl.
Qed.

(** C8, as the code has it.  Over any sequence of steps the counter of
    discriminator steps grows by one for each discriminator step that
    returns and not at all on a generator step; a discriminator step that
    raises leaves the counter as it was.  Whether they return or raise, the
    steps assign no field besides the counter, [alpha] and the modules and
    optimizers: [d_iter], [add_loss], the loss registry, [rho], the mode and
    [_use_no_grad] stay as they were. *)
Theorem counter_counts_discriminator_steps
    ks s sd g_input real_input sg g_input' :
  let out := steps ks s in
  let od := d_step g_input real_input sd in
  let og := g_step g_input' sg in
  frame s out.1 /\
  match out.2 with
  | inr rs =>
      d_iter_counter out.1 = (d_iter_counter s + discriminator_steps ks)%Z
  | inl e =>
      exists n k g_input real_input sn rs,
        ks !! n = Some (k, g_input, real_input) /\
        steps (take n ks) s = (sn, inr rs) /\
        step k g_input real_input sn = (out.1, inl e) /\
        d_iter_counter out.1
        = (d_iter_counter s + discriminator_steps (take n ks))%Z
  end /\
  frame sd od.1 /\
  generator od.1 = generator sd /\ g_optimizer od.1 = g_optimizer sd /\
  d_iter_counter od.1
  = match od.2 with
    | inr _ => (d_iter_counter sd + 1)%Z
    | inl _ => d_iter_counter sd
    end /\
  frame sg og.1 /\
  d_iter_counter og.1 = d_iter_counter sg /\
  alpha og.1 = alpha sg /\
  d_optimizer og.1 = d_optimizer sg.
Proof.
  cbv zeta.
  destruct (steps_outcome ks s) as [Hf Hs].
  split; [exact Hf |]. split.
  { destruct (steps ks s).2 as [e | rs]; [exact Hs | apply Hs]. }
  destruct (d_step g_input real_input sd) as [sd' rd] eqn:Ed.
  apply d_step_effect in Ed as (Hg & Hgo & Hfd & _ & Hr).
  destruct (g_step g_input' sg) as [sg' rg] eqn:Eg.
  apply g_step_effect in Eg as (Ha & Hdo & Hcg & Hfg & _).
  cbn [fst snd].
  split; [exact Hfd |]. split; [exact Hg |]. split; [exact Hgo |].
  split; [destruct rd as [e | [p m]]; [exact Hr | apply Hr] |].
  tauto.
Qed.
(** C9, as the code has it.  A discriminator step sets the
    [requires_grad] flag of every discriminator parameter and leaves the
    generator as it is: its forward pass is not tracked, so that neither its
    gradients nor its flags change.  A generator step clears the flag of
    every discriminator parameter; it never writes the flags of the
    generator parameters, and in evaluation mode it leaves the generator as
    it is. *)
Theorem requires_grad_toggling s g_input real_input :
  let n := length (discriminator s) in
  flags (discriminator (d_prologue s)) = replicate n true /\
  flags (discriminator (d_step g_input real_input s).1) = replicate n true /\
  generator (d_step g_input real_input s).1 = generator s /\
  flags (discriminator (g_step g_input s).1) = replicate n false /\
  flags (generator (g_step g_input s).1) = flags (generator s) /\
  generator (g_step g_input (set_mode Evaluation s)).1 = generator s.
Proof.
  intros n.
  destruct (d_step g_input real_input s) as [sd rd] eqn:Ed.
  apply d_step_effect in Ed as (Hg & _ & _ & Hfl & _).
  destruct (g_step g_input s) as [sg rg] eqn:Eg.
  apply g_step_effect in Eg as (_ & _ & _ & _ & Hfd & _ & Hfg & _).
  destruct (g_step g_input (set_mode Evaluation s)) as [se re] eqn:Ee.
  apply g_step_effect in Ee as (_ & _ & _ & _ & _ & _ & _ & He & _).
  split.
  { destruct s as [gen disc go do di dc al ls rh a tr ung].
    unfold d_prologue. simpl. destruct a; simpl;
      rewrite flags_zero_grad; apply flags_set_requires_grad. }
  simpl. repeat split; try assumption. now apply He.
Qed.

End SchedulingClaims.

(** ** The properties on the concrete trainer *)

Section ConcreteRuns.

#[local] Existing Instance identity_networks.

Lemma fresh_ok : alpha_ok fresh.
Proof. exact I. Qed.

Lemma existsb_flags m :
  existsb p_requires_grad m = existsb (fun b => b) (flags m).
Proof.
  unfold flags. induction m as [| q m IH]; [reflexivity |].
  rewrite fmap_cons. simpl. now rewrite IH.
Qed.

(** With a trainable generator parameter, every step on the batch
    ([1], [2]) returns. *)
Definition runnable (s : Trainer) : Prop :=
  alpha_ok s /\ existsb p_requires_grad (generator s) = true.

Lemma identity_step_returns k (s : Trainer) :
  runnable s ->
  exists s' r, step k [1] [2] s = (s', inr r) /\ runnable s'.
Proof.
  intros [Hok Hg]. destruct k; simpl.
  - eexists _, _. split; [apply (identity_d_step_returns s Hok) |].
    pose proof (alpha_ok_d_step s [1] [2] Hok) as Hok'.
    pose proof (identity_d_step_returns s Hok) as E.
    rewrite E in Hok'. split; [exact Hok' |].
    apply d_step_effect in E as (Hgen & _). rewrite Hgen. exact Hg.
  - pose proof (alpha_ok_g_step s [1] Hok) as Hok'.
    destruct (g_step [1] s) as [s' r] eqn:E.
    pose proof E as E'.
    apply g_step_effect in E' as (_ & _ & _ & _ & _ & _ & Hfl & _ & Hr).
    destruct r as [e | r].
    + exfalso. rewrite g_step_run in E. cbv zeta in E.
      destruct Hr as [_ Ht]. rewrite Ht, Hg in E. discriminate E.
    + exists s', r. split; [reflexivity |]. split; [exact Hok' |].
      rewrite existsb_flags, Hfl, <- existsb_flags. exact Hg.
Qed.

Lemma fresh_runnable : runnable fresh.
Proof. split; [exact I | reflexivity]. Qed.

(** Witness of C1: the first discriminator step of the fresh trainer on a
    batch of two, the critic being 1 and 3 on the real batch and 2 and 4 on
    the prediction: the means are 2 and 3, the means of the squares 5 and
    10, the constraint residual -6.5, the loss 22.125 and the reported
    ['d_loss'] -22.125. *)
Lemma d_loss_augmented_lagrangian_witness :
  add_loss fresh = None /\
  exists s' m,
    d_step [2; 4] [1; 3] fresh = (s', inr ([2; 4], m)) /\
    let fw := d_forward (d_prologue fresh) [2; 4] [1; 3] in
    epf fw = 2 /\ eqf fw = 3 /\ epf2 fw = 5 /\ eqf2 fw = 10 /\
    constraint fw = -6.5 /\
    value 0 (d_loss_graph (d_prologue fresh) fw [1; 3]) = 22.125 /\
    m !! "d_loss"%string = Some (-22.125).
Proof.
  split; [reflexivity |].
  pose proof (identity_d_step_returns_batch fresh fresh_ok) as E.
  eexists _, _. split; [exact E |].
  destruct (d_loss_augmented_lagrangian fresh [2; 4] [1; 3] _ _ _ eq_refl E)
    as (_ & Hp & Hq & Hp2 & Hq2 & Hc & _ & Hv & Hm).
  cbv zeta in Hp, Hq, Hp2, Hq2, Hc, Hv, Hm. cbv zeta.
  split; [rewrite Hp; cbn; lra |].
  split; [rewrite Hq; cbn; lra |].
  split; [rewrite Hp2; cbn; lra |].
  split; [rewrite Hq2; cbn; lra |].
  split; [rewrite Hc, Hp2, Hq2; cbn; lra |].
  split; [change (alpha_in fresh) with 0 in Hv; rewrite Hv; cbn; lra |].
  rewrite Hm. f_equal. cbn. lra.
Defined.

(** Witness of C4: a discriminator step and a generator step of the fresh
    trainer. *)
Lemma metric_key_sets_witness :
  exists sd' pd md sg' pg mg,
    d_step [1] [2] fresh = (sd', inr (pd, md)) /\
    g_step [1] fresh = (sg', inr (pg, mg)) /\
    size md = 10%nat /\ dom mg = {[ "g_loss"%string ]}.
Proof.
  pose proof (identity_d_step_returns fresh fresh_ok) as Ed.
  destruct (identity_step_returns Generator fresh fresh_runnable)
    as (sg' & [pg mg] & Eg & _).
  simpl in Eg.
  eexists _, _, _, sg', pg, mg. split; [exact Ed |]. split; [exact Eg |].
  pose proof (metric_key_sets fresh [1] [2] _ _ _ fresh [1] _ _ _ Ed Eg)
    as (_ & Hs & Hg & _).
  split; [exact Hs | exact Hg].
Defined.



(** A returning step on the batch ([1], [2]), with what it does to the
    fields the scheduler reads. *)
Lemma identity_step_run k (s : Trainer) :
  runnable s ->
  exists s' r,
    step k [1] [2] s = (s', inr r) /\ runnable s' /\ frame s s' /\
    d_iter_counter s'
    = (d_iter_counter s
       + match k with Discriminator => 1 | Generator => 0 end)%Z.
Proof.
  intros Hs. destruct (identity_step_returns k s Hs) as (s' & r & E & Hs').
  exists s', r. split; [exact E |]. split; [exact Hs' |].
  apply step_effect in E as [Hf Hc]. split; [exact Hf | exact Hc].
Qed.

(** Witness of C2: the first discriminator step of the fresh trainer, taken
    in evaluation mode, moves [alpha] from 0 to [0 + 1 * 1.5]. *)
Lemma dual_ascent_in_every_mode_witness :
  alpha_ok fresh /\
  mode (set_mode Evaluation fresh) = Evaluation /\
  alpha (d_step [1] [2] (set_mode Evaluation fresh)).1
  = Some (mkVar (0 + 1 * - (1 - (0.5 * 2 ^ 2 + 0.5 * 1 ^ 2))) (Some 0) true).
Proof.
  split; [exact fresh_ok |].
  destruct (dual_ascent_in_every_mode Evaluation fresh [1] [2] fresh_ok)
    as (Hm & g & _ & Hg & Ha).
  split; [exact Hm |].
  rewrite Ha, Hg, d_loss_backward, identity_forward. reflexivity.
Defined.

(** Witness of C3: the fresh trainer, a discriminator step and two further
    steps. *)
Lemma alpha_lifecycle_witness :
  alpha_ok fresh /\
  alpha fresh = None /\
  alpha (d_step [1] [2] fresh).1
  = Some (mkVar (0 + 1 * - (1 - (0.5 * 2 ^ 2 + 0.5 * 1 ^ 2))) (Some 0) true) /\
  is_Some (alpha (steps [(Generator, [1], [2]); (Discriminator, [1], [2])]
                    (d_step [1] [2] fresh).1).1).
Proof.
  split; [exact fresh_ok |].
  destruct (alpha_lifecycle (C := identity_networks)
              [mkParam [0] None true] [mkParam [1] None true]
              tt tt 1 2%Z None true true fresh [1] [2]
              [(Generator, [1], [2]); (Discriminator, [1], [2])] fresh_ok)
    as (Hinit & _ & _ & Ha & _ & Hs).
  split; [exact Hinit |]. split; [| exact Hs].
  rewrite Ha, identity_forward. reflexivity.
Defined.

(** C6 as stated fails on a batch on which the critic is zero: the step
    raises ZeroDivisionError instead of returning a metric that is not
    finite. *)
Lemma zero_denominator_counterexample :
  let fw := d_forward fresh [0] [0] in
  vphi_real fw = [0] /\ vphi_fake fw = [0] /\
  sqrt (0.5 * epf2 fw + 0.5 * eqf2 fw) = 0 /\
  (d_step [0] [0] fresh).2 = inl ZeroDivisionError /\
  ~ exists s' p m, d_step [0] [0] fresh = (s', inr (p, m)).
Proof.
  pose proof (identity_d_step_raises fresh fresh_ok) as E.
  cbv zeta. split; [now rewrite identity_forward |].
  split; [now rewrite identity_forward |].
  split; [apply (identity_denom_00 fresh) |].
  split; [now rewrite E |].
  intros (s' & p & m & E'). rewrite E in E'. discriminate E'.
Qed.

(** Witness of the amended C6: the batch ([1], [2]) on which the step
    returns the quotient, and the batch ([0], [0]) on which it raises with
    [alpha] updated and the counter as it was. *)
Lemma ipm_ratio_or_zero_division_witness :
  alpha_ok fresh /\
  (exists s' m,
     d_step [1] [2] fresh = (s', inr ([1], m)) /\
     m !! "ipm_ratio"%string
     = Some ((2 - 1) / sqrt (0.5 * 2 ^ 2 + 0.5 * 1 ^ 2))) /\
  (d_step [0] [0] fresh).2 = inl ZeroDivisionError /\
  alpha (d_step [0] [0] fresh).1
  = Some (mkVar (0 + 1 * - (1 - (0.5 * 0 ^ 2 + 0.5 * 0 ^ 2))) (Some 0) true) /\
  d_iter_counter (d_step [0] [0] fresh).1 = 0%Z.
Proof.
  split; [exact fresh_ok |]. split.
  - pose proof (ipm_ratio_or_zero_division fresh [1] [2] fresh_ok) as H.
    cbv zeta in H. rewrite identity_forward in H.
    cbn [vphi_real vphi_fake epf eqf epf2 eqf2 prediction] in H.
    destruct H as [(_ & s' & m & E & _ & _ & Hr) | (Hz & _)];
      [discriminate | discriminate | |].
    + exists s', m. split; [exact E | exact Hr].
    + exfalso. apply (identity_denom_12 fresh).
      rewrite identity_denom. exact Hz.
  - pose proof (ipm_ratio_or_zero_division fresh [0] [0] fresh_ok) as H.
    cbv zeta in H. rewrite identity_forward in H.
    cbn [vphi_real vphi_fake epf eqf epf2 eqf2 prediction constraint] in H.
    destruct H as [(Hpos & _) | (_ & E & _ & _ & Ha & Hc)];
      [discriminate | discriminate | |].
    + exfalso. pose proof (identity_denom_00 fresh) as Hz.
      rewrite identity_denom in Hz. rewrite Hz in Hpos. lra.
    + split; [exact E |]. split; [exact Ha | exact Hc].
Defined.

(** C8 as stated fails on a discriminator step that raises: on the batch
    ([0], [0]) the step of the fresh trainer ends with ZeroDivisionError
    after the update of [alpha], and the counter is still 0 after this one
    discriminator step. *)
Lemma raising_step_counterexample :
  let ks := [(Discriminator, [0], [0])] in
  discriminator_steps ks = 1%Z /\
  (steps ks fresh).2 = inl ZeroDivisionError /\
  alpha (steps ks fresh).1
  = Some (mkVar (0 + 1 * - (1 - (0.5 * 0 ^ 2 + 0.5 * 0 ^ 2))) (Some 0) true) /\
  d_iter_counter fresh = 0%Z /\
  d_iter_counter (steps ks fresh).1 = 0%Z /\
  d_iter_counter (steps ks fresh).1
  <> (d_iter_counter fresh + discriminator_steps ks)%Z.
Proof.
  cbv zeta. rewrite steps_cons.
  pose proof (alpha_after_d_step fresh [0] [0] fresh_ok) as Ha.
  rewrite identity_forward in Ha. cbn [constraint] in Ha.
  cbn [step]. rewrite (identity_d_step_raises fresh fresh_ok) in *.
  cbn [fst snd] in *.
  split; [reflexivity |]. split; [reflexivity |]. split; [exact Ha |].
  split; [reflexivity |].
  assert (Hc : d_iter_counter (d_updated fresh [0] [0]) = 0%Z) by reflexivity.
  split; [exact Hc |]. rewrite Hc. discriminate.
Qed.

(** Witness of the amended C8: two discriminator steps and a generator
    step of the fresh trainer leave the counter at 2. *)
Lemma counter_counts_discriminator_steps_witness :
  exists s' rs,
    steps [(Discriminator, [1], [2]); (Discriminator, [1], [2]);
           (Generator, [1], [2])] fresh = (s', inr rs) /\
    d_iter_counter s' = 2%Z /\
    d_iter_counter (d_step [1] [2] fresh).1 = 1%Z /\
    d_iter_counter (d_step [0] [0] fresh).1 = 0%Z /\
    d_iter_counter (g_step [1] fresh).1 = 0%Z.
Proof.
  destruct (identity_step_run Discriminator fresh fresh_runnable)
    as (s1 & r1 & E1 & Hs1 & _).
  destruct (identity_step_run Discriminator s1 Hs1)
    as (s2 & r2 & E2 & Hs2 & _).
  destruct (identity_step_run Generator s2 Hs2) as (s3 & r3 & E3 & _).
  assert (E :
    steps [(Discriminator, [1], [2]); (Discriminator, [1], [2]);
           (Generator, [1], [2])] fresh = (s3, inr [r1; r2; r3])).
  { rewrite steps_cons, E1. cbv beta iota.
    rewrite steps_cons, E2. cbv beta iota.
    rewrite steps_cons, E3. reflexivity. }
  eexists _, _. split; [exact E |].
  pose proof (counter_counts_discriminator_steps
                [(Discriminator, [1], [2]); (Discriminator, [1], [2]);
                 (Generator, [1], [2])] fresh fresh [1] [2] fresh [1])
    as (_ & Hc & _ & _ & _ & Hcd & _ & Hcg & _).
  pose proof (counter_counts_discriminator_steps [] fresh fresh [0] [0]
                fresh [1]) as (_ & _ & _ & _ & _ & Hcz & _).
  cbv zeta in Hc, Hcd, Hcz, Hcg.
  rewrite E in Hc. cbn [fst snd] in Hc.
  rewrite (identity_d_step_returns fresh fresh_ok) in Hcd.
  rewrite (identity_d_step_raises fresh fresh_ok) in Hcz.
  split; [exact Hc |]. split.
  { rewrite (identity_d_step_returns fresh fresh_ok). exact Hcd. }
  split; [| exact Hcg].
  rewrite (identity_d_step_raises fresh fresh_ok). exact Hcz.
Defined.

(** A trainer whose generator has a frozen first parameter. *)
Definition partly_frozen : Trainer :=
  FisherGANTrainer_init
    [mkParam [0] None false; mkParam [0] None true] [mkParam [1] None true]
    tt tt 1 2 None true true.

(** C9 as stated fails on a generator with a frozen parameter: a generator
    step in training mode returns and the parameter is still frozen, the
    step has not made it trainable; in evaluation mode the step leaves the
    whole generator as it was. *)
Lemma generator_flags_counterexample :
  flags (generator partly_frozen) = [false; true] /\
  training partly_frozen = true /\
  generator (g_step [1] (set_mode Evaluation partly_frozen)).1
  = generator partly_frozen /\
  exists s' r,
    g_step [1] partly_frozen = (s', inr r) /\
    flags (generator s') = [false; true] /\
    ~ Forall (fun q => p_requires_grad q = true) (generator s').
Proof.
  split; [reflexivity |]. split; [reflexivity |].
  split; [rewrite g_step_run; reflexivity |].
  assert (Hr : runnable partly_frozen) by (split; [exact I | reflexivity]).
  destruct (identity_step_returns Generator partly_frozen Hr)
    as (s' & r & E & _).
  simpl in E. exists s', r. split; [exact E |].
  apply g_step_effect in E as (_ & _ & _ & _ & _ & _ & Hfl & _).
  split; [exact Hfl |].
  intros HF. apply flags_replicate_true in HF.
  rewrite Hfl in HF. rewrite <- (length_fmap p_requires_grad) in HF.
  fold (flags (generator s')) in HF. rewrite Hfl in HF. discriminate HF.
Qed.

(** The fresh trainer with [rho=0.0]. *)
Definition no_penalty : Trainer :=
  FisherGANTrainer_init [mkParam [0] None true] [mkParam [1] None true]
    tt tt 0 2 None true true.

(** C10 as stated fails for [rho = 0]: on the scenario of the
    specification the constraint residual is -1.5, and the reported
    ['lagrange'] is the 0 that entered the loss. *)
Lemma lagrange_unchanged_counterexample :
  exists s' p m,
    d_step [1] [2] no_penalty = (s', inr (p, m)) /\
    constraint (d_forward no_penalty [1] [2]) = -1.5 /\
    constraint (d_forward no_penalty [1] [2]) <> 0 /\
    alpha_in no_penalty = 0 /\
    m !! "lagrange"%string = Some (alpha_in no_penalty).
Proof.
  assert (Hok : alpha_ok no_penalty) by exact I.
  pose proof (identity_d_step_returns no_penalty Hok) as E.
  eexists _, _, _. split; [exact E |].
  rewrite identity_forward. cbn [constraint].
  split; [lra |]. split; [lra |]. split; [reflexivity |].
  unfold d_metrics.
  change (ret_losses_dict ?a ?b ?c ?d ?e ?f0 ?g ?h ?i ?j !! "lagrange"%string)
    with (Some j).
  f_equal. change (rho no_penalty) with 0. ring.
Qed.

(** Witness of the amended C10: after the first discriminator step of the
    fresh trainer the reported multiplier is [0 + 1 * 1.5]. *)
Lemma lagrange_is_updated_alpha_witness :
  alpha_ok fresh /\
  exists s' p m,
    d_step [1] [2] fresh = (s', inr (p, m)) /\
    exists v,
      alpha s' = Some v /\
      m !! "lagrange"%string = Some (data v) /\
      data v = 0 + 1 * - (1 - (0.5 * 2 ^ 2 + 0.5 * 1 ^ 2)).
Proof.
  split; [exact fresh_ok |].
  pose proof (identity_d_step_returns fresh fresh_ok) as E.
  eexists _, _, _. split; [exact E |].
  destruct (lagrange_is_updated_alpha fresh [1] [2] _ _ _ fresh_ok E)
    as (v & Hv & Hm & _ & _ & Hd).
  exists v. split; [exact Hv |]. split; [exact Hm |].
  rewrite Hd, identity_forward. reflexivity.
Defined.

End ConcreteRuns.

(** * Further properties of the trainer *)

(** ** Batch statistics *)

(** On a batch of zeros the sum, the squares and the mean of the squares
    are zero. *)
Lemma sum_zeros (t : Tensor) : Forall (fun x => x = 0) t -> Torch.sum t = 0.
Proof.
  induction 1 as [| x t Hx _ IH]; [reflexivity |].
  unfold Torch.sum in *. cbn [foldr]. rewrite Hx, IH. apply Rplus_0_l.
Qed.

Lemma sq_zeros (t : Tensor) :
  Forall (fun x => x = 0) t -> Forall (fun x => x = 0) (Torch.sq t).
Proof.
  unfold Torch.sq. induction 1 as [| x t Hx _ IH]; [constructor |].
  rewrite fmap_cons. constructor; [| exact IH].
  rewrite Hx. cbn [pow]. apply Rmult_0_l.
Qed.

Lemma mean_sq_zeros (t : Tensor) :
  Forall (fun x => x = 0) t -> Torch.mean (Torch.sq t) = 0.
Proof.
  intros H. unfold Torch.mean. rewrite (sum_zeros _ (sq_zeros _ H)).
  apply Rdiv_0_l.
Qed.

(** ** More on the discriminator step *)

Section TrainerExtras.

Context `{C : Collaborators}.

(** When the critic is zero on both batches, [ipm_denom] is zero. *)
Lemma ipm_denom_zero s g_input real_input :
  let fw := d_forward s g_input real_input in
  Forall (fun x => x = 0) (vphi_real fw) ->
  Forall (fun x => x = 0) (vphi_fake fw) ->
  epf2 fw = 0 /\ eqf2 fw = 0 /\ ipm_denom_of fw = 0.
Proof.
  intros fw Hr Hf.
  assert (E1 : epf2 fw = 0) by exact (mean_sq_zeros _ Hr).
  assert (E2 : eqf2 fw = 0) by exact (mean_sq_zeros _ Hf).
  split; [exact E1 |]. split; [exact E2 |].
  unfold ipm_denom_of. rewrite E1, E2, Rmult_0_r, Rplus_0_l. apply sqrt_0.
Qed.

(** X1.  With an extra loss configured, the reported ['d_loss'] is the
    negation of the augmented Lagrangian loss plus the extra loss on the
    prediction and the real batch; the extra loss does not enter the update
    of the multiplier, which is [alpha - rho * constraint] as without it. *)
Theorem extra_loss_shifts_d_loss_only s g_input real_input f s' p m :
  alpha_ok s ->
  add_loss s = Some f ->
  d_step g_input real_input s = (s', inr (p, m)) ->
  let fw := d_forward s g_input real_input in
  let lagrangian :=
    - (epf fw - eqf fw + alpha_in s * constraint fw
       - rho s / 2 * constraint fw ^ 2) in
  m !! "d_loss"%string = Some (- (lagrangian + f p real_input)) /\
  m !! "lagrange"%string = Some (alpha_in s - rho s * constraint fw) /\
  data <$> alpha s' = Some (alpha_in s - rho s * constraint fw).
Proof.
  intros Hok Hadd Hrun. cbv zeta.
  pose proof (alpha_after_d_step s g_input real_input Hok) as Ha.
  rewrite Hrun in Ha. cbn [fst] in Ha.
  apply d_step_effect in Hrun as (_ & _ & _ & _ & _ & Hp & _ & v & Hv & ->).
  cbv zeta in Hp.
  assert (Hdata :
    data v = alpha_in s - rho s * constraint (d_forward s g_input real_input)).
  { rewrite Hv in Ha.
    assert (Hd :
      data v = alpha_in s
               + rho s * - constraint (d_forward s g_input real_input))
      by (apply (f_equal (fun o => default 0 (data <$> o))) in Ha; exact Ha).
    rewrite Hd. ring. }
  split.
  - change (ret_losses_dict ?a ?b ?c ?d ?e ?f0 ?g ?h ?i ?j !! "d_loss"%string)
      with (Some d).
    rewrite d_loss_value. unfold extra_loss. rewrite Hadd, Hp. reflexivity.
  - split.
    + change (ret_losses_dict ?a ?b ?c ?d ?e ?f0 ?g ?h ?i ?j
              !! "lagrange"%string) with (Some j).
      now rewrite Hdata.
    + rewrite Hv. cbn [fmap option_fmap option_map]. now rewrite Hdata.
Qed.

(** X2.  A discriminator step is not atomic: when [ipm_denom] is zero the
    step ends with ZeroDivisionError after the optimizer step and the
    update of the multiplier have been applied, and before the counter is
    incremented. *)
Theorem zero_division_leaves_updates s g_input real_input :
  alpha_ok s ->
  ipm_denom_of (d_forward s g_input real_input) = 0 ->
  let out := d_step g_input real_input s in
  let fw := d_forward s g_input real_input in
  let disc1 :=
    accumulate_all (zero_grad (set_requires_grad true <$> discriminator s))
      (d_loss_grads (datas (discriminator s)) (prediction fw) real_input
         (alpha_in s) (rho s) (add_loss s)) in
  let od := d_optimizer_rule (d_optimizer s) disc1 in
  out.2 = inl ZeroDivisionError /\
  d_iter_counter out.1 = d_iter_counter s /\
  d_optimizer out.1 = od.1 /\
  discriminator out.1 = write_data disc1 od.2 /\
  alpha out.1
  = Some (mkVar (alpha_in s + rho s * - constraint fw) (Some 0) true).
Proof.
  intros Hok Hz. cbv zeta.
  pose proof (alpha_after_d_step s g_input real_input Hok) as Ha.
  rewrite (d_step_run _ _ _ Hok) in *.
  destruct (Req_dec_T _ _) as [_ | N]; [| contradiction].
  cbn [fst snd] in *.
  split; [reflexivity |]. split.
  { destruct s as [gen disc go do di dc al ls rh a tr ung].
    unfold d_updated. destruct a; reflexivity. }
  split.
  { destruct s as [gen disc go do di dc al ls rh a tr ung].
    unfold d_updated, d_prologue. py_eval.
    destruct a; py_eval;
      rewrite ?datas_zero_grad, ?datas_set_requires_grad; reflexivity. }
  split; [| exact Ha].
  destruct s as [gen disc go do di dc al ls rh a tr ung].
  unfold d_updated, d_prologue. py_eval.
  destruct a; py_eval;
    rewrite ?datas_zero_grad, ?datas_set_requires_grad; reflexivity.
Qed.

(** X3.  When the critic is zero on every entry of the real batch and of
    the prediction (batches that are not empty), the means of the squares
    and [ipm_denom] are zero and the discriminator step ends with
    ZeroDivisionError. *)
Theorem zero_critic_raises_zero_division s g_input real_input :
  alpha_ok s ->
  let critic_real := discriminator_call (datas (discriminator s)) real_input in
  let critic_fake :=
    discriminator_call (datas (discriminator s))
      (generator_call (datas (generator s)) g_input) in
  critic_real <> [] -> critic_fake <> [] ->
  Forall (fun x => x = 0) critic_real ->
  Forall (fun x => x = 0) critic_fake ->
  let fw := d_forward s g_input real_input in
  epf2 fw = 0 /\ eqf2 fw = 0 /\
  sqrt (0.5 * epf2 fw + 0.5 * eqf2 fw) = 0 /\
  (d_step g_input real_input s).2 = inl ZeroDivisionError.
Proof.
  intros Hok. cbv zeta. intros _ _ Hr Hf.
  assert (Hfake :
    vphi_fake (d_forward s g_input real_input)
    = discriminator_call (datas (discriminator s))
        (generator_call (datas (generator s)) g_input)).
  { unfold d_forward. now destruct (_use_no_grad s). }
  rewrite <- Hfake in Hf.
  destruct (ipm_denom_zero s g_input real_input Hr Hf) as (E1 & E2 & Ez).
  split; [exact E1 |]. split; [exact E2 |]. split; [exact Ez |].
  rewrite (d_step_run _ _ _ Hok).
  destruct (Req_dec_T _ 0) as [_ | N]; [reflexivity | contradiction].
Qed.

End TrainerExtras.

(** ** Modes, gradients and runs *)

Section ModeExtras.

Context `{C : Collaborators}.

(** X6.  A discriminator step does not read the mode: in evaluation mode
    it returns what it returns in training mode and applies the same
    optimizer step and multiplier update. *)
Theorem d_step_ignores_mode (md : Mode) s g_input real_input :
  d_step g_input real_input (set_mode md s)
  = (set_mode md (d_step g_input real_input s).1,
     (d_step g_input real_input s).2).
Proof.
  destruct s as [gen disc go do di dc al ls rh a tr ung].
  unfold set_mode.
  destruct a as [[ad ag [|]] |]; py_eval.
  - rewrite !datas_zero_grad, !datas_set_requires_grad.
    destruct (d_optimizer_rule _ _) as [o ds].
    destruct ag; destruct (Req_dec_T _ _); reflexivity.
  - destruct (existsb _ _); py_eval; [| reflexivity].
    rewrite !datas_zero_grad, !datas_set_requires_grad.
    destruct (d_optimizer_rule _ _) as [o ds].
    destruct ag; py_eval; try destruct (Req_dec_T _ _); reflexivity.
  - rewrite !datas_zero_grad, !datas_set_requires_grad.
    destruct (d_optimizer_rule _ _) as [o ds].
    destruct (Req_dec_T _ _); reflexivity.
Qed.

(** X7.  In evaluation mode a generator step never raises and trains
    nothing: it returns the prediction and
    [g_loss = -mean(discriminator(prediction))], and the only thing it
    changes in the trainer is that the discriminator parameters are left
    frozen. *)
Theorem g_step_evaluation_is_read_only s g_input :
  training s = false ->
  let prediction := generator_call (datas (generator s)) g_input in
  let error :=
    - Torch.mean (discriminator_call (datas (discriminator s)) prediction) in
  g_step g_input s
  = (set_discriminator (set_requires_grad false <$> discriminator s) s,
     inr (prediction, {[ "g_loss"%string := error ]})) /\
  datas (set_requires_grad false <$> discriminator s)
  = datas (discriminator s) /\
  p_grad <$> (set_requires_grad false <$> discriminator s)
  = p_grad <$> discriminator s /\
  flags (set_requires_grad false <$> discriminator s)
  = replicate (length (discriminator s)) false.
Proof.
  intros Htr. cbv zeta. rewrite g_step_run. cbv zeta. rewrite Htr.
  split; [reflexivity |].
  split; [apply datas_set_requires_grad |].
  split; [| apply flags_set_requires_grad].
  rewrite <- list_fmap_compose. reflexivity.
Qed.

Lemma add_zeros_like (o g : Tensor) :
  length o = length g -> Torch.add (Torch.zeros_like o) g = g.
Proof.
  unfold Torch.add, Torch.zeros_like. revert g.
  induction o as [| x o IH]; intros [| y g] Hl; try discriminate Hl.
  - reflexivity.
  - rewrite fmap_cons. simpl. f_equal; [lra |]. apply IH.
    now injection Hl.
Qed.

(** X8.  After a discriminator step every discriminator parameter holds
    the gradient of this step only: the gradients are zeroed before the
    backward pass, so that what a parameter held before does not
    accumulate. *)
Theorem d_step_gradients_are_fresh s g_input real_input i q g :
  alpha_ok s ->
  discriminator s !! i = Some q ->
  d_loss_grads (datas (discriminator s))
    (prediction (d_forward s g_input real_input)) real_input
    (alpha_in s) (rho s) (add_loss s) !! i = Some g ->
  (forall old, p_grad q = Some old -> length old = length g) ->
  exists q',
    discriminator (d_step g_input real_input s).1 !! i = Some q' /\
    p_grad q' = Some g /\ p_requires_grad q' = true.
Proof.
  intros Hok Hq Hg Hshape.
  destruct (zero_division_free_state s g_input real_input Hok) as [-> _].
  unfold write_data, accumulate_all.
  rewrite list_lookup_imap, list_lookup_imap, Hg.
  unfold zero_grad. rewrite !list_lookup_fmap, Hq. cbn [fmap option_fmap option_map].
  unfold accumulate, set_requires_grad. cbn [p_requires_grad p_grad p_data].
  destruct ((d_optimizer_rule _ _).2 !! i) as [d |];
    (eexists; split; [reflexivity |]); cbn [p_grad p_requires_grad];
    (split; [| reflexivity]);
    destruct (p_grad q) as [old |] eqn:E; cbn [fmap option_fmap option_map];
    try reflexivity; f_equal; apply add_zeros_like, Hshape; reflexivity.
Qed.

(** X18.  The names that [__init__] registers are the keys of the
    dictionaries that the steps return, on the constructed trainer and after
    any sequence of steps (no step assigns the registry): the ten names
    under ['training'] are the keys of the dictionary of a discriminator
    step, and the name under ['validation'] is the key of the dictionary of
    a generator step. *)
Theorem registry_matches_step_metrics gen disc go do rho0 di al tr ung
    ks g_input real_input :
  let s := (steps ks (FisherGANTrainer_init gen disc go do rho0 di al tr ung)).1 in
  _losses s !! "training"%string
  = Some ["ipm_enum"; "ipm_denom"; "ipm_ratio"; "d_loss"; "constraint";
          "epf"; "eqf"; "epf2"; "eqf2"; "lagrange"]%string /\
  _losses s !! "validation"%string = Some ["g_loss"%string] /\
  match (d_step g_input real_input s).2 with
  | inr (_, m) =>
      dom m = list_to_set (default [] (_losses s !! "training"%string))
  | inl _ => True
  end /\
  match (g_step g_input s).2 with
  | inr (_, m) =>
      dom m = list_to_set (default [] (_losses s !! "validation"%string))
  | inl _ => True
  end.
Proof.
  cbv zeta.
  destruct (steps_outcome ks
              (FisherGANTrainer_init gen disc go do rho0 di al tr ung))
    as [(_ & _ & Hl & _) _].
  rewrite Hl.
  split; [reflexivity |]. split; [reflexivity |]. split.
  - destruct (d_step g_input real_input _) as [s' [e | [p m]]] eqn:E;
      [exact I |].
    apply d_step_effect in E as (_ & _ & _ & _ & _ & _ & _ & v & _ & ->).
    cbn [snd]. apply ret_losses_dict_dom.
  - destruct (g_step g_input _) as [s' [e | [p m]]] eqn:E; [exact I |].
    apply g_step_effect in E as (_ & _ & _ & _ & _ & _ & _ & _ & _ & ->).
    cbn [snd]. rewrite dom_singleton_L.
    change (FisherGANTrainer_init gen disc go do rho0 di al tr ung)
      with (mkTrainer gen disc go do di 0
              al (<["validation"%string := validation_losses]>
                    (<["training"%string := training_losses]> ∅))
              rho0 None tr ung).
    cbn [_losses]. rewrite lookup_insert_eq. unfold validation_losses.
    cbn [default]. set_solver.
Qed.

End ModeExtras.

(** ** The further properties on concrete trainers *)

(** Networks that return their input, with the parameter data as
    gradients. *)
Definition echo_gradients : Collaborators :=
  {| OptState := unit;
     generator_call := fun _ x => x;
     discriminator_call := fun _ x => x;
     d_loss_grads := fun ds _ _ _ _ _ => ds;
     g_error_grads := fun gs _ _ => gs;
     g_optimizer_rule := fun o m => (o, datas m);
     d_optimizer_rule := fun o m => (o, datas m) |}.

Section ConcreteExtras.

#[local] Existing Instance identity_networks.

(** The fresh trainer with the constant 7 as extra loss. *)
Definition with_extra_loss : Trainer :=
  FisherGANTrainer_init [mkParam [0] None true] [mkParam [1] None true]
    tt tt 1 2 (Some (fun _ _ => 7)) true true.

Lemma extra_loss_shifts_d_loss_only_witness :
  alpha_ok with_extra_loss /\
  exists s' p m,
    d_step [1] [2] with_extra_loss = (s', inr (p, m)) /\
    m !! "lagrange"%string
    = Some (alpha_in with_extra_loss
            - rho with_extra_loss
              * constraint (d_forward with_extra_loss [1] [2])).
Proof.
  assert (Hok : alpha_ok with_extra_loss) by exact I.
  split; [exact Hok |].
  pose proof (identity_d_step_returns with_extra_loss Hok) as E.
  eexists _, _, _. split; [exact E |].
  apply (extra_loss_shifts_d_loss_only with_extra_loss [1] [2]
           (fun _ _ => 7) _ _ _ Hok eq_refl E).
Defined.

Lemma zero_division_leaves_updates_witness :
  alpha_ok fresh /\ ipm_denom_of (d_forward fresh [0] [0]) = 0 /\
  d_iter_counter (d_step [0] [0] fresh).1 = d_iter_counter fresh /\
  alpha (d_step [0] [0] fresh).1
  = Some (mkVar (alpha_in fresh
                 + rho fresh * - constraint (d_forward fresh [0] [0]))
                (Some 0) true).
Proof.
  split; [exact fresh_ok |]. split; [apply identity_denom_00 |].
  pose proof (zero_division_leaves_updates fresh [0] [0] fresh_ok
                (identity_denom_00 fresh)) as (_ & Hc & _ & _ & Ha).
  split; [exact Hc | exact Ha].
Defined.

Lemma zero_critic_raises_zero_division_witness :
  alpha_ok fresh /\
  Forall (fun x => x = 0) [0] /\
  (d_step [0] [0] fresh).2 = inl ZeroDivisionError.
Proof.
  split; [exact fresh_ok |].
  assert (Hz : Forall (fun x => x = 0) [0]) by (constructor; [reflexivity | constructor]).
  split; [exact Hz |].
  apply (zero_critic_raises_zero_division fresh [0] [0] fresh_ok);
    [discriminate | discriminate | exact Hz | exact Hz].
Defined.

Lemma g_step_evaluation_is_read_only_witness :
  training (set_mode Evaluation fresh) = false /\
  (g_step [1] (set_mode Evaluation fresh)).2
  = inr ([1], {[ "g_loss"%string := - Torch.mean [1] ]}).
Proof.
  split; [reflexivity |].
  destruct (g_step_evaluation_is_read_only (set_mode Evaluation fresh) [1]
              eq_refl) as [E _].
  rewrite E. reflexivity.
Defined.

End ConcreteExtras.

Section EchoExtras.

#[local] Existing Instance echo_gradients.

(** A trainer whose discriminator parameter is frozen and holds a stale
    gradient. *)
Definition stale : Trainer :=
  FisherGANTrainer_init [mkParam [0] None true]
    [mkParam [1] (Some [5]) false] tt tt 1 2 None true true.

Lemma d_step_gradients_are_fresh_witness :
  alpha_ok stale /\
  discriminator stale !! 0%nat = Some (mkParam [1] (Some [5]) false) /\
  exists q',
    discriminator (d_step [1] [2] stale).1 !! 0%nat = Some q' /\
    p_grad q' = Some [1] /\ p_requires_grad q' = true.
Proof.
  assert (Hok : alpha_ok stale) by exact I.
  split; [exact Hok |]. split; [reflexivity |].
  apply (d_step_gradients_are_fresh stale [1] [2] 0%nat
           (mkParam [1] (Some [5]) false) [1] Hok eq_refl eq_refl).
  intros old [= <-]. reflexivity.
Defined.

End EchoExtras.

(** * dlt/util/func.py: [applier] *)

(** A Python object as [apply] tells them apart: a [dict], a [tuple], a
    [list], or anything else.  A dict is the finite map of its items (the
    comprehension of [apply] keeps the keys, and the order of the items,
    as they are). *)
#[warnings="-register-all"]
Inductive PyObj (A : Type) : Type :=
| Other (a : A)
| PyDict (d : gmap string (PyObj A))
| PyTuple (xs : list (PyObj A))
| PyList (xs : list (PyObj A)).

Arguments Other {A} a.
Arguments PyDict {A} d.
Arguments PyTuple {A} xs.
Arguments PyList {A} xs.

Section Applier.

Context {A : Type}.

(** [isinstance(objs, (dict, tuple, list))] *)
Definition is_collection (objs : PyObj A) : bool :=
  match objs with
  | Other _ => false
  | _ => true
  end.

(** [applier(f)], that is the closure [apply] it returns. *)
Definition applier (f : PyObj A -> PyObj A) : PyObj A -> PyObj A :=
  fun objs =>
    match objs with
    | PyDict d => PyDict (f <$> d)
    | PyTuple xs => PyTuple (f <$> xs)
    | PyList xs => PyList (f <$> xs)
    | Other _ => f objs
    end.

(** X11.  Appliers compose as their functions do on every collection, and
    on any other object when [f] does not turn it into a collection:
    [applier(g)(applier(f)(x)) = applier(lambda y: g(f(y)))(x)]. *)
Theorem applier_compose (f g : PyObj A -> PyObj A) (x : PyObj A) :
  is_collection x = true \/ is_collection (f x) = false ->
  applier g (applier f x) = applier (fun y => g (f y)) x.
Proof.
  intros H. destruct x as [a | d | xs | xs]; simpl.
  - destruct H as [H | H]; [discriminate H |].
    destruct (f (Other a)); [reflexivity | discriminate H ..].
  - f_equal. rewrite <- map_fmap_compose. reflexivity.
  - f_equal. rewrite <- list_fmap_compose. reflexivity.
  - f_equal. rewrite <- list_fmap_compose. reflexivity.
Qed.

(** The condition of X11 is needed: when [f] wraps a plain object into a
    list, [applier(g)] maps [g] over that list instead of applying it to
    the list. *)
Lemma applier_compose_needs_condition (a : A) :
  let f := fun y : PyObj A => PyList [y] in
  let g := fun y : PyObj A => PyTuple [y; y] in
  applier g (applier f (Other a)) = PyList [PyTuple [Other a; Other a]] /\
  applier (fun y => g (f y)) (Other a)
  = PyTuple [PyList [Other a]; PyList [Other a]].
Proof. split; reflexivity. Qed.

End Applier.

Lemma applier_compose_witness :
  let f := fun y : PyObj nat => PyList [y] in
  let g := fun y : PyObj nat => PyTuple [y; y] in
  is_collection (PyList [Other 1%nat; Other 2%nat]) = true /\
  applier g (applier f (PyList [Other 1%nat; Other 2%nat]))
  = PyList [PyTuple [PyList [Other 1%nat]; PyList [Other 1%nat]];
            PyTuple [PyList [Other 2%nat]; PyList [Other 2%nat]]].
Proof.
  split; [reflexivity |].
  rewrite (applier_compose (fun y : PyObj nat => PyList [y])
             (fun y => PyTuple [y; y])
             (PyList [Other 1%nat; Other 2%nat]) (or_introl eq_refl)).
  reflexivity.
Defined.

(** * dlt/util/logger.py: [Logger] *)

From Stdlib Require Import Ascii.

(** The line terminator. *)
Definition newline : string := String (ascii_of_nat 10) "".

(** ** Strings *)

(** [c in s] *)
Fixpoint has_char (c : ascii) (s : string) : bool :=
  match s with
  | EmptyString => false
  | String c' s => Ascii.eqb c' c || has_char c s
  end.

Lemma string_app_assoc (a b c : string) : (a +:+ b) +:+ c = a +:+ (b +:+ c).
Proof.
  induction a as [| x a IH]; [reflexivity |].
  change (String x ((a +:+ b) +:+ c) = String x (a +:+ (b +:+ c))).
  f_equal. exact IH.
Qed.

Lemma string_app_nil_r (a : string) : a +:+ "" = a.
Proof.
  induction a as [| x a IH]; [reflexivity |].
  change (String x (a +:+ "") = String x a). f_equal. exact IH.
Qed.

Lemma has_char_app c (a b : string) :
  has_char c (a +:+ b) = has_char c a || has_char c b.
Proof.
  induction a as [| x a IH]; [reflexivity |].
  change (Ascii.eqb x c || has_char c (a +:+ b)
          = Ascii.eqb x c || has_char c a || has_char c b).
  rewrite IH. apply orb_assoc.
Qed.

(** ** Values, strings and the [%] operator *)

(** What a logged value can be: a tensor, a string, or any other Python
    object.  [item] is [tensor.item()], and [py_str] and [tensor_str] are
    what [str] prints. *)
Class PyValues : Type := {
  PyTensor : Type;
  PyOther : Type;
  item : PyTensor -> PyOther;
  py_str : PyOther -> string;
  tensor_str : PyTensor -> string;
}.

Section LoggerModel.

Context `{V : PyValues}.

Inductive Value : Type :=
| VTensor (t : PyTensor)
| VStr (s : string)
| VOther (a : PyOther).

(** Modelled from the spec: [is_tensor] of dlt/util/misc.py, a module
    outside the sources covered here; it tells tensors from other values. *)
Definition is_tensor (val : Value) : bool :=
  match val with
  | VTensor _ => true
  | _ => false
  end.

(** [val.item()] on a tensor. *)
Definition item_of (val : Value) : Value :=
  match val with
  | VTensor t => VOther (item t)
  | _ => val
  end.

(** [str(val)], what the conversion [%s] prints. *)
Definition str (val : Value) : string :=
  match val with
  | VTensor t => tensor_str t
  | VStr s => s
  | VOther a => py_str a
  end.

(** How [fmt % mapping] can end. *)
Inductive Formatted : Type :=
| Row (s : string)
| KeyError (key : string)       (* the mapping has no such key *)
| ValueError                    (* incomplete format or format key *)
| Unsupported.                  (* a conversion that the template never has *)

Definition prepend (c : ascii) (r : Formatted) : Formatted :=
  match r with
  | Row s => Row (String c s)
  | _ => r
  end.

Definition prepend_string (t : string) (r : Formatted) : Formatted :=
  match r with
  | Row s => Row (t +:+ s)
  | _ => r
  end.

(** Where the scan of a format string stands: in plain text, after a
    [%], inside a parenthesised mapping key (with the number of open
    parentheses and the key read so far), or after the key. *)
Inductive Scan : Type :=
| InText
| AfterPercent
| InKey (depth : nat) (key : string)
| AfterKey (key : string).

(** [fmt % mapping], on formats whose conversions are [%(key)s] and [%%];
    the key of a conversion runs to the parenthesis that closes the one
    after [%]. *)
Fixpoint percent (scan : Scan) (fmt : string) (mapping : gmap string Value)
  : Formatted :=
  match fmt with
  | EmptyString =>
      match scan with
      | InText => Row ""
      | _ => ValueError
      end
  | String c rest =>
      match scan with
      | InText =>
          if Ascii.eqb c "%"%char then percent AfterPercent rest mapping
          else prepend c (percent InText rest mapping)
      | AfterPercent =>
          if Ascii.eqb c "("%char then percent (InKey 1 "") rest mapping
          else if Ascii.eqb c "%"%char
               then prepend "%"%char (percent InText rest mapping)
               else Unsupported
      | InKey depth key =>
          if Ascii.eqb c ")"%char then
            match depth with
            | 1%nat => percent (AfterKey key) rest mapping
            | _ => percent (InKey (pred depth) (key +:+ String c ""))
                     rest mapping
            end
          else if Ascii.eqb c "("%char
               then percent (InKey (S depth) (key +:+ String c ""))
                      rest mapping
               else percent (InKey depth (key +:+ String c "")) rest mapping
      | AfterKey key =>
          if Ascii.eqb c "s"%char then
            match mapping !! key with
            | Some val => prepend_string (str val) (percent InText rest mapping)
            | None => KeyError key
            end
          else Unsupported
      end
  end.

(** ** The logger *)

(** [os.path.join(a, b)] on POSIX paths. *)
Definition path_join (a b : string) : string :=
  match b with
  | String "/"%char _ => b
  | _ =>
      if String.eqb a "" then b
      else if String.eqb (substring (String.length a - 1) 1 a) "/"
           then a +:+ b
           else a +:+ "/" +:+ b
  end.

(** A [logging.FileHandler] with its [logging.Formatter]. *)
Record Handler : Type := mkHandler {
  baseFilename : string;
  _fmt : string;
}.

(** What the logger acts on: the content of the files, by path (a path
    stands for the file it resolves to), and the handlers of the loggers
    that [logging.getLogger] hands out, by name. *)
Record World : Type := mkWorld {
  files : gmap string string;
  handlers : gmap string (list Handler);
}.

(** The attributes of a [Logger]; [logger] is the name under which
    [logging.getLogger] holds the underlying logger. *)
Record Logger : Type := mkLogger {
  filename : string;
  directory : string;
  file : string;
  fields : list string;
  logger : string;
}.

(** *** [logging.Formatter]

    The constructor of a [Formatter] validates its format, as of Python
    3.8: the format has to contain a conversion with a mapping key made of
    word characters.  Strings stand for Python strings of ASCII characters,
    on which [\w] is a letter, a digit or the underscore and [re.I] lets a
    conversion character be of either case. *)

(** [\w] *)
Definition word_char (c : ascii) : bool :=
  let n := nat_of_ascii c in
  ((48 <=? n) && (n <=? 57) || (65 <=? n) && (n <=? 90)
   || (97 <=? n) && (n <=? 122) || (n =? 95))%nat.

(** [\d] *)
Definition digit_char (c : ascii) : bool :=
  let n := nat_of_ascii c in ((48 <=? n) && (n <=? 57))%nat.

(** [[#0+ -]] *)
Definition flag_char (c : ascii) : bool := has_char c "#0+ -".

(** [[diouxefgcrsa%]], with [re.I] *)
Definition conversion_char (c : ascii) : bool :=
  has_char c "diouxefgcrsaDIOUXEFGCRSA%".

(** Where a match of [[#0+ -]*(\*|\d+)?(\.(\*|\d+))?[diouxefgcrsa%]]
    stands: in the flags, in the digits of the width, after a width [*],
    after the dot, in the digits of the precision, after a precision
    [*]. *)
Inductive Conversion : Type :=
| Flags | Width | AfterWidth | Dot | Precision | AfterPrecision.

(** The text starts with a match of the part of the pattern that follows
    the mapping key. *)
Fixpoint conversion_match (at_ : Conversion) (text : string) : bool :=
  match text with
  | EmptyString => false
  | String c rest =>
      match at_ with
      | Flags =>
          if flag_char c then conversion_match Flags rest
          else if digit_char c then conversion_match Width rest
          else if Ascii.eqb c "*" then conversion_match AfterWidth rest
          else if Ascii.eqb c "." then conversion_match Dot rest
          else conversion_char c
      | Width =>
          if digit_char c then conversion_match Width rest
          else if Ascii.eqb c "." then conversion_match Dot rest
          else conversion_char c
      | AfterWidth =>
          if Ascii.eqb c "." then conversion_match Dot rest
          else conversion_char c
      | Dot =>
          if digit_char c then conversion_match Precision rest
          else if Ascii.eqb c "*" then conversion_match AfterPrecision rest
          else false
      | Precision =>
          if digit_char c then conversion_match Precision rest
          else conversion_char c
      | AfterPrecision => conversion_char c
      end
  end.

(** The text starts with a match of [\w+\)...]; [seen] tells whether a
    word character has been read. *)
Fixpoint key_match (seen : bool) (text : string) : bool :=
  match text with
  | EmptyString => false
  | String c rest =>
      if word_char c then key_match true rest
      else if Ascii.eqb c ")" then seen && conversion_match Flags rest
      else false
  end.

(** The text starts with a match of the whole pattern. *)
Definition placeholder_match (text : string) : bool :=
  match text with
  | String "%" (String "(" rest) => key_match false rest
  | _ => false
  end.

(** [PercentStyle.validation_pattern.search(fmt)] finds a match. *)
Fixpoint validation_pattern_search (fmt : string) : bool :=
  match fmt with
  | EmptyString => false
  | String _ rest => placeholder_match fmt || validation_pattern_search rest
  end.

(** [logging.Formatter(fmt)], seen through the [_fmt] it keeps;
    [None] is the [ValueError] that [validate] raises. *)
Definition Formatter (fmt : string) : option string :=
  (* self._fmt = fmt or self.default_format *)
  let _fmt := if String.eqb fmt "" then "%(message)s" else fmt in
  if validation_pattern_search _fmt then Some _fmt else None.

(** Line 34: the template of a row. *)
Definition field_tmpl (delimiter : string) (fields : list string) : string :=
  String.concat delimiter ((fun x => "%(" +:+ ("_" +:+ x) +:+ ")s") <$> fields).

Section WithPaths.

(** [process] of dlt/util/paths.py, a module outside the sources covered
    here, is taken as it comes; the directory it creates is not part of
    the world. *)
Variable process : string -> bool -> string.

(** [Logger.__init__]; [None] is the [ValueError] that line 35 raises when
    the [Formatter] refuses the template: the header has been written and
    the file opened by then, and the handler is not added. *)
Definition Logger_init (name : string) (fields : list string)
    (directory delimiter : string) (resume : bool) (w : World)
  : option Logger * World :=
  let filename := name +:+ ".csv" in
  let directory := process directory true in
  let file := path_join directory filename in
  (* Write header *)
  let fs :=
    if negb resume || negb (bool_decide (is_Some (files w !! file)))
    then <[file := String.concat delimiter fields +:+ newline]> (files w)
    else files w in
  (* FileHandler(self.file) opens the file for appending *)
  let fs :=
    match fs !! file with
    | Some _ => fs
    | None => <[file := ""]> fs
    end in
  match Formatter (field_tmpl delimiter fields) with
  | None => (None, mkWorld fs (handlers w))
  | Some fmt =>
      let file_handler := mkHandler file fmt in
      let hs := default [] (handlers w !! name) ++ [file_handler] in
      (Some (mkLogger filename directory file fields name),
       mkWorld fs (<[name := hs]> (handlers w)))
  end.

End WithPaths.

(** [Logger._create_dict] *)
Definition _create_dict (self : Logger) (values : gmap string Value)
  : gmap string Value :=
  let ret : gmap string Value :=
    list_to_map ((fun key => ("_" +:+ key, VStr "")) <$> fields self) in
  (* ret.update(...) *)
  kmap (fun key => "_" +:+ key)
    ((fun val => if is_tensor val then item_of val else val) <$> values)
  ∪ ret.

(** [handler.emit(record)]: the formatted record and a newline are
    appended to the file; a record that cannot be formatted is reported on
    stderr and nothing is written.  The record is seen through its message,
    which is empty, and the extras that [log] gives it: the keys of a
    template whose field names have no parenthesis all start with an
    underscore, which no attribute that [logging] itself puts in a record
    does. *)
Definition emit (record : gmap string Value) (fs : gmap string string)
    (h : Handler) : gmap string string :=
  (* record.message = record.getMessage() *)
  let record := <["message" := VStr ""]> record in
  match percent InText (_fmt h) record with
  | Row s =>
      <[baseFilename h := default "" (fs !! baseFilename h) +:+ s +:+ newline]>
        fs
  | _ => fs
  end.

(** [Logger.log]: [self.logger.info('', extra=...)] hands the record to
    each handler of the logger in turn. *)
Definition log (self : Logger) (values : gmap string Value) (w : World)
  : World :=
  let record := _create_dict self values in
  mkWorld
    (foldl (emit record) (files w) (default [] (handlers w !! logger self)))
    (handlers w).

(** [Logger.__call__] *)
Definition Logger_call (self : Logger) (values : gmap string Value)
    (w : World) : World :=
  log self values w.

End LoggerModel.

Section LoggerFacts.

Context `{V : PyValues}.

Lemma prepend_prepend_string c t r :
  prepend c (prepend_string t r) = prepend_string (String c t) r.
Proof. destruct r; reflexivity. Qed.

Lemma prepend_string_app a b r :
  prepend_string a (prepend_string b r) = prepend_string (a +:+ b) r.
Proof. destruct r; simpl; [now rewrite string_app_assoc | reflexivity ..]. Qed.

Lemma prepend_string_nil r : prepend_string "" r = r.
Proof. destruct r; reflexivity. Qed.

(** Text without [%] is copied. *)
Lemma percent_text (t rest : string) (m : gmap string Value) :
  has_char "%" t = false ->
  percent InText (t +:+ rest) m = prepend_string t (percent InText rest m).
Proof.
  induction t as [| c t IH]; simpl; intros H.
  - now rewrite prepend_string_nil.
  - apply orb_false_iff in H as [Hc Ht]. rewrite Hc.
    rewrite (IH Ht). apply prepend_prepend_string.
Qed.

(** A key without parentheses is read up to the closing parenthesis. *)
Lemma percent_key (key acc rest : string) (m : gmap string Value) :
  has_char "(" key = false -> has_char ")" key = false ->
  percent (InKey 1 acc) (key +:+ String ")" rest) m
  = percent (AfterKey (acc +:+ key)) rest m.
Proof.
  revert acc. induction key as [| c key IH]; intros acc Ho Hc.
  - simpl. now rewrite string_app_nil_r.
  - simpl in Ho, Hc.
    apply orb_false_iff in Ho as [Ho1 Ho2].
    apply orb_false_iff in Hc as [Hc1 Hc2].
    replace (acc +:+ String c key) with ((acc +:+ String c "") +:+ key)
      by (rewrite string_app_assoc; reflexivity).
    rewrite <- (IH (acc +:+ String c "") Ho2 Hc2).
    change (String c key +:+ String ")" rest)
      with (String c (key +:+ String ")" rest)).
    cbn [percent]. rewrite Hc1, Ho1. reflexivity.
Qed.

(** The conversion [%(key)s] prints the value under [key]. *)
Lemma percent_placeholder (key rest : string) (m : gmap string Value) val :
  has_char "(" key = false -> has_char ")" key = false ->
  m !! key = Some val ->
  percent InText (("%(" +:+ key +:+ ")s") +:+ rest) m
  = prepend_string (str val) (percent InText rest m).
Proof.
  intros Ho Hc Hm.
  change (("%(" +:+ key +:+ ")s") +:+ rest)
    with (String "%" (String "(" ((key +:+ ")s") +:+ rest))).
  rewrite string_app_assoc.
  change (percent InText (String "%" (String "(" (key +:+ ")s" +:+ rest))) m)
    with (percent (InKey 1 "") (key +:+ String ")" (String "s" rest)) m).
  rewrite (percent_key key "" _ m Ho Hc).
  change ("" +:+ key) with key. simpl. now rewrite Hm.
Qed.

End LoggerFacts.

(** ** What the logger writes *)

Section LoggerExtras.

Context `{V : PyValues}.

(** A field name without parentheses. *)
Definition plain_field (x : string) : bool :=
  negb (has_char "(" x) && negb (has_char ")" x).

(** The text logged for a field: the string of its value, a tensor being
    logged through its item, and the empty string when the row has no
    value for the field. *)
Definition logged (values : gmap string Value) (field : string) : string :=
  str (default (VStr "") (item_of <$> values !! field)).

Lemma item_if_tensor val : (if is_tensor val then item_of val else val) = item_of val.
Proof. destruct val; reflexivity. Qed.

Lemma item_of_not_tensor val : is_tensor (item_of val) = false.
Proof. destruct val; reflexivity. Qed.

Lemma empty_row_lookup (fs : list string) (key : string) :
  (list_to_map ((fun k => ("_" +:+ k, VStr "")) <$> fs) : gmap string Value)
    !! ("_" +:+ key)
  = if bool_decide (key ∈ fs) then Some (VStr "") else None.
Proof.
  induction fs as [| f fs IH].
  - reflexivity.
  - rewrite fmap_cons, list_to_map_cons. cbn [fst snd].
    destruct (decide (f = key)) as [-> | N].
    + rewrite lookup_insert_eq.
      rewrite bool_decide_eq_true_2; [reflexivity | left].
    + rewrite lookup_insert_ne
        by (intros E; apply N; exact (String.app_inj "_" _ _ E)).
      rewrite IH. apply (f_equal (fun b : bool => if b then _ else _)).
      apply bool_decide_ext. rewrite elem_of_cons. intuition congruence.
Qed.

(** The record of [_create_dict] under an underscored key. *)
Lemma create_dict_lookup (self : Logger) (values : gmap string Value) key :
  _create_dict self values !! ("_" +:+ key)
  = match values !! key with
    | Some val => Some (item_of val)
    | None =>
        if bool_decide (key ∈ fields self) then Some (VStr "") else None
    end.
Proof.
  unfold _create_dict. rewrite lookup_union.
  rewrite (lookup_kmap _ (Inj0 := String.app_inj "_")).
  rewrite lookup_fmap, empty_row_lookup.
  destruct (values !! key) as [val |]; cbn [fmap option_fmap option_map].
  - rewrite item_if_tensor. destruct (bool_decide _); reflexivity.
  - destruct (bool_decide _); reflexivity.
Qed.

(** X12.  The record that [_create_dict] builds has, under the name of
    each field and of each key of [values] prefixed with an underscore,
    the value of the row, or the empty string for a field that the row
    does not have; it has no other key, and no tensor is left in it. *)
Theorem create_dict_entries (self : Logger) (values : gmap string Value) :
  (forall key,
     _create_dict self values !! ("_" +:+ key)
     = match values !! key with
       | Some val => Some (item_of val)
       | None =>
           if bool_decide (key ∈ fields self) then Some (VStr "") else None
       end) /\
  (forall k val,
     _create_dict self values !! k = Some val ->
     (exists key, k = "_" +:+ key) /\ is_tensor val = false).
Proof.
  split.
  - intros key. apply create_dict_lookup.
  - unfold _create_dict. intros k val H.
    apply lookup_union_Some_raw in H as [H | [_ H]].
    + apply (lookup_kmap_Some _ (Inj0 := String.app_inj "_")) in H
        as (key & -> & H).
      rewrite lookup_fmap in H.
      destruct (values !! key) as [v |]; [| discriminate H].
      cbn [fmap option_fmap option_map] in H. injection H as <-.
      rewrite item_if_tensor. split; [eauto | apply item_of_not_tensor].
    + apply elem_of_list_to_map_2, list_elem_of_fmap in H
        as (key & [= -> ->] & _).
      split; [eauto | reflexivity].
Qed.

Lemma concat_cons2 (sep x y : string) (l : list string) :
  String.concat sep (x :: y :: l) = x +:+ sep +:+ String.concat sep (y :: l).
Proof. reflexivity. Qed.

Lemma percent_template (delimiter : string) (fs : list string)
    (m : gmap string Value) (g : string -> Value) :
  (forall f, f ∈ fs -> m !! ("_" +:+ f) = Some (g f)) ->
  Forall (fun f => plain_field f = true) fs ->
  has_char "%" delimiter = false ->
  percent InText (field_tmpl delimiter fs) m
  = Row (String.concat delimiter ((fun f => str (g f)) <$> fs)).
Proof.
  intros Hm Hp Hd. unfold field_tmpl.
  set (ph := fun x : string => "%(" +:+ ("_" +:+ x) +:+ ")s").
  set (tx := fun f : string => str (g f)).
  induction fs as [| f fs IH]; [reflexivity |].
  inversion Hp as [| ? ? Hf Hfs]; subst.
  unfold plain_field in Hf. apply andb_true_iff in Hf as [Ho Hc].
  apply negb_true_iff in Ho, Hc.
  assert (Hof : has_char "(" ("_" +:+ f) = false) by exact Ho.
  assert (Hcf : has_char ")" ("_" +:+ f) = false) by exact Hc.
  assert (Hmf : m !! ("_" +:+ f) = Some (g f)) by (apply Hm; left).
  destruct fs as [| f2 fs].
  - change (String.concat delimiter (ph <$> [f])) with (ph f).
    change (String.concat delimiter (tx <$> [f])) with (tx f).
    rewrite <- (string_app_nil_r (ph f)). unfold ph.
    rewrite (percent_placeholder _ "" m _ Hof Hcf Hmf).
    cbn [percent prepend_string]. now rewrite string_app_nil_r.
  - change (String.concat delimiter (ph <$> f :: f2 :: fs))
      with (ph f +:+ delimiter +:+ String.concat delimiter (ph <$> f2 :: fs)).
    change (String.concat delimiter (tx <$> f :: f2 :: fs))
      with (tx f +:+ delimiter +:+ String.concat delimiter (tx <$> f2 :: fs)).
    unfold ph at 1.
    rewrite (percent_placeholder _ _ m _ Hof Hcf Hmf).
    rewrite (percent_text _ _ _ Hd).
    rewrite IH; [| intros x Hx; apply Hm; now right | exact Hfs].
    reflexivity.
Qed.

(** The template of line 34 on the record of [_create_dict]. *)
Lemma template_on_record (self : Logger) (delimiter : string)
    (values : gmap string Value) :
  Forall (fun f => plain_field f = true) (fields self) ->
  has_char "%" delimiter = false ->
  percent InText (field_tmpl delimiter (fields self))
    (_create_dict self values)
  = Row (String.concat delimiter (logged values <$> fields self)).
Proof.
  intros Hp Hd.
  apply (percent_template delimiter (fields self) _
           (fun f => default (VStr "") (item_of <$> values !! f)));
    [| exact Hp | exact Hd].
  intros f Hf.
  rewrite create_dict_lookup. destruct (values !! f); [reflexivity |].
  rewrite bool_decide_eq_true_2 by exact Hf. reflexivity.
Qed.

(** X13.  When no field name has a parenthesis and the delimiter has no
    [%], formatting the template of line 34 on the record of
    [_create_dict] never fails and gives the texts logged for the fields,
    in the order of the fields, joined by the delimiter. *)
Theorem row_is_joined_fields (self : Logger) (delimiter : string)
    (values : gmap string Value) :
  Forall (fun f => plain_field f = true) (fields self) ->
  has_char "%" delimiter = false ->
  percent InText (field_tmpl delimiter (fields self))
    (_create_dict self values)
  = Row (String.concat delimiter (logged values <$> fields self)) /\
  length (logged values <$> fields self) = length (fields self).
Proof.
  intros Hp Hd. split; [| apply length_fmap].
  exact (template_on_record self delimiter values Hp Hd).
Qed.

(** The row of a call to [log]. *)
Definition row_text (delimiter : string) (fs : list string)
    (values : gmap string Value) : string :=
  String.concat delimiter (logged values <$> fs) +:+ newline.

(** The rows of successive calls to [log], in the order of the calls. *)
Definition rows_text (delimiter : string) (fs : list string)
    (vs : list (gmap string Value)) : string :=
  foldr (fun values acc => row_text delimiter fs values +:+ acc) "" vs.

(** *** What the [Formatter] accepts *)

(** A text of ASCII characters. *)
Fixpoint ascii_text (x : string) : bool :=
  match x with
  | EmptyString => true
  | String c x => (nat_of_ascii c <? 128)%nat && ascii_text x
  end.

(** A name made of word characters. *)
Fixpoint word_name (x : string) : bool :=
  match x with
  | EmptyString => true
  | String c x => word_char c && word_name x
  end.

(** A match that starts further on is found. *)
Lemma search_app_r (a b : string) :
  validation_pattern_search b = true ->
  validation_pattern_search (a +:+ b) = true.
Proof.
  intros H. induction a as [| c a IH]; [exact H |].
  change (placeholder_match (String c (a +:+ b))
          || validation_pattern_search (a +:+ b) = true).
  rewrite IH. apply orb_true_r.
Qed.

Lemma key_match_word (x rest : string) :
  word_name x = true ->
  key_match true (x +:+ String ")" (String "s" rest)) = true.
Proof.
  induction x as [| c x IH]; [reflexivity |].
  cbn [word_name]. intros [Hc Hx]%andb_true_iff.
  change (key_match true (String c (x +:+ String ")" (String "s" rest)))
          = true).
  cbn [key_match]. rewrite Hc. exact (IH Hx).
Qed.

(** The placeholder of a field whose name is made of word characters is a
    match of the pattern. *)
Lemma search_placeholder (x rest : string) :
  word_name x = true ->
  validation_pattern_search (("%(" +:+ ("_" +:+ x) +:+ ")s") +:+ rest) = true.
Proof.
  intros Hx. rewrite !string_app_assoc.
  change (placeholder_match
            (String "%" (String "(" (String "_" (x +:+ ")s" +:+ rest))))
          || validation_pattern_search
               (String "(" (String "_" (x +:+ ")s" +:+ rest))) = true).
  apply orb_true_iff. left.
  change (key_match true (x +:+ String ")" (String "s" rest)) = true).
  exact (key_match_word x rest Hx).
Qed.

Lemma search_field_tmpl (delimiter : string) (fs : list string) :
  Exists (fun f => word_name f = true) fs ->
  validation_pattern_search (field_tmpl delimiter fs) = true.
Proof.
  unfold field_tmpl.
  set (ph := fun x : string => "%(" +:+ ("_" +:+ x) +:+ ")s").
  induction 1 as [f fs Hf | f fs Hfs IH].
  - destruct fs as [| f2 fs].
    + change (String.concat delimiter (ph <$> [f])) with (ph f).
      rewrite <- (string_app_nil_r (ph f)). exact (search_placeholder f "" Hf).
    + change (String.concat delimiter (ph <$> f :: f2 :: fs))
        with (ph f +:+ delimiter +:+ String.concat delimiter (ph <$> f2 :: fs)).
      exact (search_placeholder f _ Hf).
  - destruct fs as [| f2 fs]; [inversion Hfs |].
    change (String.concat delimiter (ph <$> f :: f2 :: fs))
      with (ph f +:+ delimiter +:+ String.concat delimiter (ph <$> f2 :: fs)).
    apply search_app_r, search_app_r, IH.
Qed.

(** The template of a list of fields is empty only when the list is. *)
Lemma field_tmpl_empty (delimiter : string) (fs : list string) :
  field_tmpl delimiter fs = "" -> fs = [].
Proof. destruct fs as [| f [| f2 fs]]; [reflexivity | discriminate ..]. Qed.

(** Without fields the [Formatter] falls back on the format of the message;
    with a field whose name is made of word characters it accepts the
    template. *)
Lemma Formatter_accepts (delimiter : string) (fs : list string) :
  fs = [] \/ Exists (fun f => word_name f = true) fs ->
  Formatter (field_tmpl delimiter fs)
  = Some (match fs with
          | [] => "%(message)s"
          | _ => field_tmpl delimiter fs
          end).
Proof.
  intros [-> | H]; [reflexivity |].
  unfold Formatter.
  destruct (String.eqb_spec (field_tmpl delimiter fs) "") as [E | _].
  - apply field_tmpl_empty in E. subst fs. inversion H.
  - rewrite (search_field_tmpl delimiter fs H). now destruct fs.
Qed.

(** No match starts in a text without [%]. *)
Lemma search_text (t rest : string) :
  has_char "%" t = false ->
  validation_pattern_search (t +:+ rest) = validation_pattern_search rest.
Proof.
  induction t as [| c t IH]; [reflexivity |].
  cbn [has_char]. intros [Hc Ht]%orb_false_iff.
  change (placeholder_match (String c (t +:+ rest))
          || validation_pattern_search (t +:+ rest)
          = validation_pattern_search rest).
  rewrite (IH Ht).
  assert (placeholder_match (String c (t +:+ rest)) = false) as ->;
    [| reflexivity].
  unfold placeholder_match.
  destruct (Ascii.eqb_spec c "%") as [-> | N]; [discriminate Hc |].
  destruct c as [[|] [|] [|] [|] [|] [|] [|] [|]]; try reflexivity.
  now destruct N.
Qed.

(** No match starts in a name without [(] that is not followed by one. *)
Lemma search_name (x : string) (c : ascii) (rest : string) :
  has_char "(" x = false -> Ascii.eqb c "(" = false ->
  validation_pattern_search (x +:+ String c rest)
  = validation_pattern_search (String c rest).
Proof.
  intros Hx Hc. induction x as [| y x IH]; [reflexivity |].
  cbn [has_char] in Hx. apply orb_false_iff in Hx as [Hy Hx].
  change (placeholder_match (String y (x +:+ String c rest))
          || validation_pattern_search (x +:+ String c rest)
          = validation_pattern_search (String c rest)).
  rewrite (IH Hx).
  assert (placeholder_match (String y (x +:+ String c rest)) = false) as ->;
    [| reflexivity].
  unfold placeholder_match.
  destruct x as [| z x].
  - change ("" +:+ String c rest) with (String c rest).
    destruct (Ascii.eqb_spec c "(") as [-> | N]; [discriminate Hc |].
    destruct y as [[|] [|] [|] [|] [|] [|] [|] [|]]; try reflexivity.
    destruct c as [[|] [|] [|] [|] [|] [|] [|] [|]]; try reflexivity.
    now destruct N.
  - change (String z x +:+ String c rest) with (String z (x +:+ String c rest)).
    cbn [has_char] in Hx. apply orb_false_iff in Hx as [Hz _].
    destruct (Ascii.eqb_spec z "(") as [-> | N]; [discriminate Hz |].
    destruct y as [[|] [|] [|] [|] [|] [|] [|] [|]]; try reflexivity.
    destruct z as [[|] [|] [|] [|] [|] [|] [|] [|]]; try reflexivity.
    now destruct N.
Qed.

(** A key that is not made of word characters is refused where it stops
    being one. *)
Lemma key_match_not_word (seen : bool) (x rest : string) :
  has_char ")" x = false -> word_name x = false ->
  key_match seen (x +:+ rest) = false.
Proof.
  revert seen. induction x as [| c x IH]; intros seen Hp Hw;
    [discriminate Hw |].
  cbn [has_char] in Hp. apply orb_false_iff in Hp as [Hc Hx].
  cbn [word_name] in Hw.
  change (key_match seen (String c (x +:+ rest)) = false).
  cbn [key_match].
  destruct (word_char c); [apply (IH true Hx Hw) |].
  now rewrite Hc.
Qed.

(** No match starts in the placeholder of a plain field whose name is not
    made of word characters. *)
Lemma search_placeholder_not_word (x rest : string) :
  plain_field x = true -> word_name x = false ->
  validation_pattern_search (("%(" +:+ ("_" +:+ x) +:+ ")s") +:+ rest)
  = validation_pattern_search rest.
Proof.
  unfold plain_field. intros [Ho Hc]%andb_true_iff Hw.
  apply negb_true_iff in Ho, Hc.
  rewrite !string_app_assoc.
  change (placeholder_match
            (String "%" (String "(" (String "_" (x +:+ ")s" +:+ rest))))
          || (placeholder_match
                (String "(" (String "_" (x +:+ ")s" +:+ rest)))
              || (placeholder_match (String "_" (x +:+ ")s" +:+ rest))
                  || validation_pattern_search
                       (x +:+ String ")" (String "s" rest))))
          = validation_pattern_search rest).
  assert (placeholder_match
            (String "%" (String "(" (String "_" (x +:+ ")s" +:+ rest))))
          = false) as ->.
  { change (key_match true (x +:+ (")s" +:+ rest)) = false).
    exact (key_match_not_word true x _ Hc Hw). }
  rewrite (search_name x ")" (String "s" rest) Ho eq_refl).
  reflexivity.
Qed.

Lemma search_field_tmpl_not_word (delimiter : string) (fs : list string) :
  Forall (fun f => plain_field f = true) fs ->
  has_char "%" delimiter = false ->
  Forall (fun f => word_name f = false) fs ->
  validation_pattern_search (field_tmpl delimiter fs) = false.
Proof.
  intros Hp Hd Hw. unfold field_tmpl.
  set (ph := fun x : string => "%(" +:+ ("_" +:+ x) +:+ ")s").
  induction fs as [| f fs IH]; [reflexivity |].
  inversion Hp as [| ? ? Hpf Hpfs]; subst.
  inversion Hw as [| ? ? Hwf Hwfs]; subst.
  destruct fs as [| f2 fs].
  - change (String.concat delimiter (ph <$> [f])) with (ph f).
    rewrite <- (string_app_nil_r (ph f)).
    exact (search_placeholder_not_word f "" Hpf Hwf).
  - change (String.concat delimiter (ph <$> f :: f2 :: fs))
      with (ph f +:+ delimiter +:+ String.concat delimiter (ph <$> f2 :: fs)).
    unfold ph at 1.
    rewrite (search_placeholder_not_word f _ Hpf Hwf).
    rewrite (search_text delimiter _ Hd).
    exact (IH Hpfs Hwfs).
Qed.

Section WithProcess.

Variable process : string -> bool -> string.

(** The world after a construction, whether it returns or raises. *)
Lemma init_world name fs directory delimiter resume w :
  let out := Logger_init process name fs directory delimiter resume w in
  let path := path_join (process directory true) (name +:+ ".csv") in
  files out.2 !! path
  = Some (match files w !! path with
          | Some old => if resume then old
                        else String.concat delimiter fs +:+ newline
          | None => String.concat delimiter fs +:+ newline
          end) /\
  (forall p, p <> path -> files out.2 !! p = files w !! p) /\
  (forall n, n <> name -> handlers out.2 !! n = handlers w !! n) /\
  match Formatter (field_tmpl delimiter fs) with
  | Some fmt =>
      out.1 = Some (mkLogger (name +:+ ".csv") (process directory true) path
                      fs name) /\
      handlers out.2 !! name
      = Some (default [] (handlers w !! name) ++ [mkHandler path fmt])
  | None => out.1 = None /\ handlers out.2 = handlers w
  end.
Proof.
  cbv zeta. unfold Logger_init.
  set (path := path_join (process directory true) (name +:+ ".csv")).
  assert (Hfiles :
    forall fs' : gmap string string,
      fs' = (if negb resume || negb (bool_decide (is_Some (files w !! path)))
             then <[path := String.concat delimiter fs +:+ newline]> (files w)
             else files w) ->
      match fs' !! path with Some _ => fs' | None => <[path := ""]> fs' end
        !! path
      = Some (match files w !! path with
              | Some old => if resume then old
                            else String.concat delimiter fs +:+ newline
              | None => String.concat delimiter fs +:+ newline
              end) /\
      forall p, p <> path ->
        match fs' !! path with Some _ => fs' | None => <[path := ""]> fs' end
          !! p = files w !! p).
  { intros fs' ->. destruct (files w !! path) as [old |] eqn:E.
    - rewrite bool_decide_eq_true_2 by eauto.
      destruct resume; cbn [negb orb].
      + rewrite E. split; [exact E | reflexivity].
      + rewrite lookup_insert_eq. split; [apply lookup_insert_eq |].
        intros p Hp. now apply lookup_insert_ne.
    - rewrite bool_decide_eq_false_2 by (intros [? ?]; discriminate).
      rewrite orb_true_r, lookup_insert_eq. split; [apply lookup_insert_eq |].
      intros p Hp. now apply lookup_insert_ne. }
  destruct (Hfiles _ eq_refl) as [H1 H2].
  destruct (Formatter (field_tmpl delimiter fs)) as [fmt |];
    cbn [fst snd files handlers].
  - split; [exact H1 |]. split; [exact H2 |].
    split; [intros n Hn; now apply lookup_insert_ne |].
    split; [reflexivity | apply lookup_insert_eq].
  - split; [exact H1 |]. split; [exact H2 |].
    split; [reflexivity |]. split; reflexivity.
Qed.

(** X14.  Constructing a [Logger] leaves the file with the header row
    (the field names joined by the delimiter), except that with [resume]
    set a file that exists is kept as it is, whatever its first row; other
    files and the handlers of other loggers are not touched.  When a field
    name is made of word characters the [Formatter] accepts the template
    and one more handler for the file is added to the logger of that name;
    without fields the handler formats the message.  When the
    [Formatter] refuses the template the constructor raises, after the
    header has been written, and no handler is added. *)
Theorem init_header_or_resume (name : string) (fs : list string)
    (directory delimiter : string) (resume : bool) (w : World) :
  let out := Logger_init process name fs directory delimiter resume w in
  let path := path_join (process directory true) (name +:+ ".csv") in
  let header := String.concat delimiter fs +:+ newline in
  let self := mkLogger (name +:+ ".csv") (process directory true) path fs name in
  files out.2 !! path
  = Some (match files w !! path with
          | Some old => if resume then old else header
          | None => header
          end) /\
  (forall p, p <> path -> files out.2 !! p = files w !! p) /\
  (forall n, n <> name -> handlers out.2 !! n = handlers w !! n) /\
  (Exists (fun f => word_name f = true) fs ->
   out.1 = Some self /\
   handlers out.2 !! name
   = Some (default [] (handlers w !! name)
           ++ [mkHandler path (field_tmpl delimiter fs)])) /\
  (fs = [] ->
   out.1 = Some self /\
   handlers out.2 !! name
   = Some (default [] (handlers w !! name) ++ [mkHandler path "%(message)s"])) /\
  (ascii_text (field_tmpl delimiter fs) = true ->
   validation_pattern_search (field_tmpl delimiter fs) = false -> fs <> [] ->
   out.1 = None /\ handlers out.2 = handlers w).
Proof.
  cbv zeta.
  destruct (init_world name fs directory delimiter resume w)
    as (H1 & H2 & H3 & H4). cbv zeta in H1, H2, H3, H4.
  split; [exact H1 |]. split; [exact H2 |]. split; [exact H3 |].
  split; [| split].
  - intros He.
    rewrite (Formatter_accepts delimiter fs (or_intror He)) in H4.
    destruct fs; [inversion He | exact H4].
  - intros ->. exact H4.
  - intros _ Hs Hne. unfold Formatter in H4.
    destruct (String.eqb_spec (field_tmpl delimiter fs) "") as [E | _];
      [now apply field_tmpl_empty in E |].
    rewrite Hs in H4. exact H4.
Qed.

(** X17.  For plain field names and a delimiter without [%] (ASCII
    texts), the constructor raises exactly when there are fields and none of
    their names is made of word characters only. *)
Theorem init_raises_without_word_field (name : string) (fs : list string)
    (directory delimiter : string) (resume : bool) (w : World) :
  Forall (fun f => plain_field f = true) fs ->
  has_char "%" delimiter = false ->
  Forall (fun f => ascii_text f = true) fs -> ascii_text delimiter = true ->
  let out := Logger_init process name fs directory delimiter resume w in
  (out.1 = None
   <-> fs <> [] /\ Forall (fun f => word_name f = false) fs) /\
  (out.1 = None -> handlers out.2 = handlers w).
Proof.
  intros Hp Hd _ _. cbv zeta.
  destruct (init_world name fs directory delimiter resume w)
    as (_ & _ & _ & H4). cbv zeta in H4.
  assert (Hdec :
    Exists (fun f => word_name f = true) fs
    \/ Forall (fun f => word_name f = false) fs).
  { clear. induction fs as [| f fs [IH | IH]].
    - right. constructor.
    - left. now right.
    - destruct (word_name f) eqn:E; [left; now left | right; now constructor]. }
  destruct fs as [| f fs].
  - cbn in H4. destruct H4 as [-> _].
    split; [| discriminate]. split; [discriminate | now intros [[] _]].
  - destruct Hdec as [He | Hw].
    + rewrite (Formatter_accepts delimiter _ (or_intror He)) in H4.
      destruct H4 as [-> _].
      split; [| discriminate]. split; [discriminate |].
      intros [_ Hw]. exfalso.
      apply Exists_exists in He as (x & Hx & Ex).
      rewrite Forall_forall in Hw. specialize (Hw x Hx). congruence.
    + unfold Formatter in H4.
      destruct (String.eqb_spec (field_tmpl delimiter (f :: fs)) "")
        as [E | _]; [now apply field_tmpl_empty in E |].
      rewrite (search_field_tmpl_not_word delimiter _ Hp Hd Hw) in H4.
      destruct H4 as [-> Hh].
      split; [| intros _; exact Hh]. split; [| reflexivity].
      intros _. split; [discriminate | exact Hw].
Qed.

End WithProcess.

(** The record that a handler formats: the extras and the message. *)
Lemma formatted_row (self : Logger) (delimiter : string)
    (values : gmap string Value) (fmt : string) :
  Formatter (field_tmpl delimiter (fields self)) = Some fmt ->
  Forall (fun f => plain_field f = true) (fields self) ->
  has_char "%" delimiter = false ->
  percent InText fmt (<["message" := VStr ""]> (_create_dict self values))
  = Row (String.concat delimiter (logged values <$> fields self)).
Proof.
  intros Hf Hp Hd. unfold Formatter in Hf.
  destruct (String.eqb_spec (field_tmpl delimiter (fields self)) "")
    as [E | _].
  - apply field_tmpl_empty in E. rewrite E in *.
    cbn in Hf. injection Hf as <-.
    cbn [percent Ascii.eqb Bool.eqb]. cbn.
    rewrite lookup_insert_eq. reflexivity.
  - destruct (validation_pattern_search _); [| discriminate Hf].
    injection Hf as <-.
    apply (percent_template delimiter (fields self) _
             (fun f => default (VStr "") (item_of <$> values !! f)));
      [| exact Hp | exact Hd].
    intros f Hin. rewrite lookup_insert_ne by discriminate.
    rewrite create_dict_lookup. destruct (values !! f); [reflexivity |].
    rewrite bool_decide_eq_true_2 by exact Hin. reflexivity.
Qed.

Lemma emit_row (record : gmap string Value) fs path fmt r :
  percent InText fmt (<["message" := VStr ""]> record) = Row r ->
  emit record fs (mkHandler path fmt)
  = <[path := default "" (fs !! path) +:+ r +:+ newline]> fs.
Proof. intros H. unfold emit. cbn [_fmt baseFilename]. now rewrite H. Qed.

(** One handler per construction: each writes the row once. *)
Lemma emit_all (record : gmap string Value) fs path fmt r (n : nat) :
  percent InText fmt (<["message" := VStr ""]> record) = Row r ->
  let fs' := foldl (emit record) fs (replicate n (mkHandler path fmt)) in
  (n <> 0%nat ->
   fs' !! path
   = Some (default "" (fs !! path)
           +:+ foldr (fun _ acc => (r +:+ newline) +:+ acc) ""
                 (replicate n tt))) /\
  (forall p, p <> path -> fs' !! p = fs !! p).
Proof.
  intros Hr. cbv zeta. revert fs. induction n as [| n IH]; intros fs.
  - split; [congruence | reflexivity].
  - cbn [replicate foldl foldr]. rewrite (emit_row _ _ _ _ _ Hr).
    destruct (IH (<[path := default "" (fs !! path) +:+ r +:+ newline]> fs))
      as [IH1 IH2].
    split.
    + intros _. destruct n as [| n].
      * cbn [replicate foldl foldr]. rewrite lookup_insert_eq.
        now rewrite string_app_nil_r.
      * rewrite IH1 by discriminate. rewrite lookup_insert_eq.
        change (default "" (Some ?x)) with x.
        now rewrite (string_app_assoc (default "" (fs !! path))).
    + intros p Hp. rewrite (IH2 p Hp). now apply lookup_insert_ne.
Qed.

(** What [log] writes when the logger has [n] handlers of the same file
    and format. *)
Lemma log_with_handlers (self : Logger) delimiter fmt values w (n : nat) :
  handlers w !! logger self = Some (replicate n (mkHandler (file self) fmt)) ->
  Formatter (field_tmpl delimiter (fields self)) = Some fmt ->
  Forall (fun f => plain_field f = true) (fields self) ->
  has_char "%" delimiter = false ->
  let w' := log self values w in
  handlers w' = handlers w /\
  (n <> 0%nat ->
   files w' !! file self
   = Some (default "" (files w !! file self)
           +:+ foldr (fun _ acc =>
                        row_text delimiter (fields self) values +:+ acc) ""
                 (replicate n tt))) /\
  (forall p, p <> file self -> files w' !! p = files w !! p).
Proof.
  intros Hh Hf Hp Hd. cbv zeta. unfold log. cbn [files handlers].
  rewrite Hh. change (default [] (Some ?x)) with x. split; [reflexivity |].
  pose proof (formatted_row self delimiter values fmt Hf Hp Hd) as Hr.
  destruct (emit_all _ (files w) (file self) _ _ n Hr) as [H1 H2].
  split; [| exact H2].
  intros Hn. rewrite (H1 Hn). reflexivity.
Qed.

(** The calls [log(values)] for the rows [vs] in turn. *)
Definition logs (self : Logger) (vs : list (gmap string Value)) (w : World)
  : World :=
  foldl (fun w values => log self values w) w vs.

Lemma logs_append (self : Logger) delimiter fmt vs w content :
  handlers w !! logger self = Some [mkHandler (file self) fmt] ->
  Formatter (field_tmpl delimiter (fields self)) = Some fmt ->
  files w !! file self = Some content ->
  Forall (fun f => plain_field f = true) (fields self) ->
  has_char "%" delimiter = false ->
  files (logs self vs w) !! file self
  = Some (content +:+ rows_text delimiter (fields self) vs) /\
  (forall p, p <> file self -> files (logs self vs w) !! p = files w !! p) /\
  handlers (logs self vs w) = handlers w.
Proof.
  intros Hh Hf Hc Hp Hd. revert w content Hh Hc. unfold logs.
  induction vs as [| values vs IH]; intros w content Hh Hc.
  - cbn [foldl rows_text foldr]. rewrite string_app_nil_r.
    split; [exact Hc |]. split; reflexivity.
  - cbn [foldl].
    destruct (log_with_handlers self delimiter fmt values w 1 Hh Hf Hp Hd)
      as (Hh' & H1 & H2).
    specialize (H1 ltac:(discriminate)). cbn [replicate foldr] in H1.
    rewrite string_app_nil_r, Hc in H1.
    change (default "" (Some ?x)) with x in H1.
    destruct (IH (log self values w)
                (content +:+ row_text delimiter (fields self) values))
      as (IH1 & IH2 & IH3); [rewrite Hh'; exact Hh | exact H1 |].
    split.
    + rewrite IH1. cbn [rows_text foldr]. now rewrite string_app_assoc.
    + split; [| now rewrite IH3].
      intros p Hpne. rewrite (IH2 p Hpne). now apply H2.
Qed.

Section WithProcess2.

Variable process : string -> bool -> string.

(** A construction that the [Formatter] accepts. *)
Lemma init_accepted name fs directory delimiter resume w :
  fs = [] \/ Exists (fun f => word_name f = true) fs ->
  let path := path_join (process directory true) (name +:+ ".csv") in
  let self := mkLogger (name +:+ ".csv") (process directory true) path fs name in
  exists w1 fmt,
    Logger_init process name fs directory delimiter resume w = (Some self, w1) /\
    Formatter (field_tmpl delimiter fs) = Some fmt /\
    files w1 !! path
    = Some (match files w !! path with
            | Some old => if resume then old
                          else String.concat delimiter fs +:+ newline
            | None => String.concat delimiter fs +:+ newline
            end) /\
    (forall p, p <> path -> files w1 !! p = files w !! p) /\
    handlers w1 !! name
    = Some (default [] (handlers w !! name) ++ [mkHandler path fmt]).
Proof.
  intros Hacc. cbv zeta.
  destruct (init_world process name fs directory delimiter resume w)
    as (H1 & H2 & _ & H4). cbv zeta in H1, H2, H4.
  pose proof (Formatter_accepts delimiter fs Hacc) as Hf.
  rewrite Hf in H4. destruct H4 as [Hs Hh].
  destruct (Logger_init process name fs directory delimiter resume w)
    as [o w1]. cbn [fst snd] in *. subst o.
  eexists w1, _. split; [reflexivity |]. split; [exact Hf |].
  split; [exact H1 |]. split; [exact H2 | exact Hh].
Qed.

(** X15.  For a logger with a name not used before, plain field names of
    which one is made of word characters (or no field at all) and a
    delimiter without [%], the constructor returns, and the file after the
    construction and any number of calls to [log] is what the construction
    left (the header, or the file resumed) followed by one row per call, in
    the order of the calls, each row ending with a newline. *)
Theorem file_is_header_then_rows name fs directory delimiter (resume : bool)
    (w : World) vs :
  handlers w !! name = None ->
  Forall (fun f => plain_field f = true) fs ->
  has_char "%" delimiter = false ->
  fs = [] \/ Exists (fun f => word_name f = true) fs ->
  let path := path_join (process directory true) (name +:+ ".csv") in
  let start :=
    match files w !! path with
    | Some old => if resume then old
                  else String.concat delimiter fs +:+ newline
    | None => String.concat delimiter fs +:+ newline
    end in
  exists self w1,
    Logger_init process name fs directory delimiter resume w = (Some self, w1) /\
    file self = path /\
    files (logs self vs w1) !! path
    = Some (start +:+ rows_text delimiter fs vs) /\
    (forall p, p <> path -> files (logs self vs w1) !! p = files w !! p).
Proof.
  intros Hfresh Hp Hd Hacc. cbv zeta.
  destruct (init_accepted name fs directory delimiter resume w Hacc)
    as (w1 & fmt & Hinit & Hf & Hc & Ho & Hh).
  rewrite Hfresh in Hh.
  eexists _, w1. split; [exact Hinit |]. split; [reflexivity |].
  match type of Hinit with _ = (Some ?l, _) => set (self := l) in * end.
  destruct (logs_append self delimiter fmt vs w1 _ Hh Hf Hc Hp Hd)
    as (H1 & H2 & _).
  split; [exact H1 |].
  intros p Hpne. rewrite (H2 p Hpne). now apply Ho.
Qed.

(** X16.  Under the same conditions, a second [Logger] constructed with
    the name of a first one adds a second handler to the same underlying
    logger: from then on every call to [log], on either object, writes the
    row twice. *)
Theorem second_logger_doubles_rows name fs directory delimiter
    resume1 resume2 w values :
  handlers w !! name = None ->
  Forall (fun f => plain_field f = true) fs ->
  has_char "%" delimiter = false ->
  fs = [] \/ Exists (fun f => word_name f = true) fs ->
  let row := row_text delimiter fs values in
  exists first w1 second w2 content,
    Logger_init process name fs directory delimiter resume1 w
    = (Some first, w1) /\
    Logger_init process name fs directory delimiter resume2 w1
    = (Some second, w2) /\
    files w2 !! file second = Some content /\
    files (log second values w2) !! file second
    = Some (content +:+ row +:+ row) /\
    log first values w2 = log second values w2.
Proof.
  intros Hfresh Hp Hd Hacc. cbv zeta.
  destruct (init_accepted name fs directory delimiter resume1 w Hacc)
    as (w1 & fmt & Hinit1 & Hf & _ & _ & Hh1).
  rewrite Hfresh in Hh1.
  destruct (init_accepted name fs directory delimiter resume2 w1 Hacc)
    as (w2 & fmt' & Hinit2 & Hf' & Hc2 & _ & Hh2).
  rewrite Hf in Hf'. injection Hf' as <-. rewrite Hh1 in Hh2.
  eexists _, w1, _, w2, _.
  split; [exact Hinit1 |]. split; [exact Hinit2 |].
  split; [exact Hc2 |]. split; [| reflexivity].
  match type of Hinit2 with _ = (Some ?l, _) => set (self := l) in * end.
  destruct (log_with_handlers self delimiter fmt values w2 2 Hh2 Hf Hp Hd)
    as (_ & H & _).
  rewrite (H ltac:(discriminate)). subst self. cbn [file]. rewrite Hc2.
  change (default "" (Some ?x)) with x. cbn [replicate foldr].
  now rewrite string_app_nil_r.
Qed.

End WithProcess2.

End LoggerExtras.

(** ** The logger on concrete rows *)

(** Values that are their own text. *)
Definition text_values : PyValues :=
  {| PyTensor := string;
     PyOther := string;
     item := fun t => t;
     py_str := fun a => a;
     tensor_str := fun t => "tensor(" +:+ t +:+ ")" |}.

Section ConcreteLogger.

#[local] Existing Instance text_values.

Definition no_files : World := mkWorld ∅ ∅.

Definition keep_directory (d : string) (_ : bool) : string := d.

(** [Logger('log', ['epoch', 'loss'])] *)
Definition epoch_loss : Logger :=
  mkLogger "log.csv" "." "./log.csv" ["epoch"; "loss"] "log".

Lemma epoch_loss_init :
  (Logger_init keep_directory "log" ["epoch"; "loss"] "." "," true no_files).1
  = Some epoch_loss.
Proof. reflexivity. Qed.

(** A row with a tensor for [loss], nothing for [epoch], and a key that is
    not a field. *)
Definition loss_only : gmap string Value :=
  {[ "loss" := VTensor "0.5"; "lr" := VOther "0.1" ]}.

Lemma plain_epoch_loss :
  Forall (fun f => plain_field f = true) ["epoch"; "loss"].
Proof. repeat constructor. Qed.

Lemma word_epoch_loss :
  ["epoch"; "loss"] = [] \/ Exists (fun f => word_name f = true) ["epoch"; "loss"].
Proof. right. left. reflexivity. Qed.

Lemma create_dict_entries_witness :
  _create_dict epoch_loss loss_only !! "_loss" = Some (VOther "0.5") /\
  _create_dict epoch_loss loss_only !! "_epoch" = Some (VStr "") /\
  _create_dict epoch_loss loss_only !! "_lr" = Some (VOther "0.1") /\
  is_tensor (VOther "0.5") = false.
Proof.
  destruct (create_dict_entries epoch_loss loss_only) as [H1 H2].
  split; [exact (H1 "loss") |]. split; [exact (H1 "epoch") |].
  split; [exact (H1 "lr") |].
  exact (proj2 (H2 "_loss" (VOther "0.5") (H1 "loss"))).
Defined.

Lemma row_is_joined_fields_witness :
  Forall (fun f => plain_field f = true) (fields epoch_loss) /\
  has_char "%" "," = false /\
  percent InText (field_tmpl "," (fields epoch_loss))
    (_create_dict epoch_loss loss_only) = Row ",0.5".
Proof.
  split; [exact plain_epoch_loss |]. split; [reflexivity |].
  destruct (row_is_joined_fields epoch_loss "," loss_only plain_epoch_loss
              eq_refl) as [E _].
  rewrite E. reflexivity.
Defined.

(** [Logger('log', ['epoch', 'loss'])] returns, with the header written and
    a handler added; [Logger('log', ['learning rate'])] raises after the
    header is written, and no handler is added. *)
Lemma init_header_or_resume_witness :
  (let out :=
     Logger_init keep_directory "log" ["epoch"; "loss"] "." "," true no_files in
   out.1 = Some epoch_loss /\
   files out.2 !! "./log.csv" = Some ("epoch,loss" +:+ newline) /\
   handlers out.2 !! "log"
   = Some [mkHandler "./log.csv" "%(_epoch)s,%(_loss)s"]) /\
  (let out :=
     Logger_init keep_directory "log" ["learning rate"] "." "," true no_files in
   out.1 = None /\
   files out.2 !! "./log.csv" = Some ("learning rate" +:+ newline) /\
   handlers out.2 = handlers no_files).
Proof.
  split; cbv zeta.
  - destruct (init_header_or_resume keep_directory "log" ["epoch"; "loss"]
                "." "," true no_files) as (Hc & _ & _ & Hw & _ & _).
    cbv zeta in Hc, Hw.
    destruct Hw as [Hs Hh]; [left; reflexivity |].
    split; [exact Hs |]. split; [exact Hc | exact Hh].
  - destruct (init_header_or_resume keep_directory "log" ["learning rate"]
                "." "," true no_files) as (Hc & _ & _ & _ & _ & Hr).
    cbv zeta in Hc, Hr.
    destruct Hr as [Hs Hh]; [reflexivity | reflexivity | discriminate |].
    split; [exact Hs |]. split; [exact Hc | exact Hh].
Defined.

Lemma init_raises_without_word_field_witness :
  Forall (fun f => plain_field f = true) ["learning rate"] /\
  has_char "%" "," = false /\
  Forall (fun f => word_name f = false) ["learning rate"] /\
  (Logger_init keep_directory "log" ["learning rate"] "." "," true no_files).1
  = None /\
  (Logger_init keep_directory "log" ["learning rate"; "loss"] "." "," true
     no_files).1 <> None.
Proof.
  assert (Hp1 : Forall (fun f => plain_field f = true) ["learning rate"])
    by (repeat constructor).
  assert (Hp2 : Forall (fun f => plain_field f = true) ["learning rate"; "loss"])
    by (repeat constructor).
  assert (Ha1 : Forall (fun f => ascii_text f = true) ["learning rate"])
    by (repeat constructor).
  assert (Ha2 : Forall (fun f => ascii_text f = true) ["learning rate"; "loss"])
    by (repeat constructor).
  assert (Hw : Forall (fun f => word_name f = false) ["learning rate"])
    by (repeat constructor).
  split; [exact Hp1 |]. split; [reflexivity |]. split; [exact Hw |].
  split.
  - apply (init_raises_without_word_field keep_directory "log"
             ["learning rate"] "." "," true no_files Hp1 eq_refl Ha1 eq_refl).
    split; [discriminate | exact Hw].
  - intros H.
    apply (init_raises_without_word_field keep_directory "log"
             ["learning rate"; "loss"] "." "," true no_files Hp2 eq_refl Ha2
             eq_refl) in H as [_ H].
    inversion H as [| ? ? _ H2]; subst. inversion H2 as [| ? ? H3 _]; subst.
    discriminate H3.
Defined.

Lemma file_is_header_then_rows_witness :
  handlers no_files !! "log" = None /\
  Forall (fun f => plain_field f = true) ["epoch"; "loss"] /\
  has_char "%" "," = false /\
  exists w1,
    Logger_init keep_directory "log" ["epoch"; "loss"] "." "," true no_files
    = (Some epoch_loss, w1) /\
    files (logs epoch_loss [loss_only; loss_only] w1) !! "./log.csv"
    = Some ("epoch,loss" +:+ newline +:+ ",0.5" +:+ newline
            +:+ ",0.5" +:+ newline).
Proof.
  split; [reflexivity |]. split; [exact plain_epoch_loss |].
  split; [reflexivity |].
  destruct (file_is_header_then_rows keep_directory "log" ["epoch"; "loss"]
              "." "," true no_files [loss_only; loss_only] eq_refl
              plain_epoch_loss eq_refl word_epoch_loss)
    as (self & w1 & Hinit & _ & E & _).
  cbv zeta in E.
  assert (Hself : self = epoch_loss).
  { apply (f_equal fst) in Hinit. cbn [fst] in Hinit.
    rewrite epoch_loss_init in Hinit. now injection Hinit. }
  subst self. exists w1. split; [exact Hinit | exact E].
Defined.

Lemma second_logger_doubles_rows_witness :
  handlers no_files !! "log" = None /\
  exists w1 w2,
    Logger_init keep_directory "log" ["epoch"; "loss"] "." "," true no_files
    = (Some epoch_loss, w1) /\
    Logger_init keep_directory "log" ["epoch"; "loss"] "." "," true w1
    = (Some epoch_loss, w2) /\
    files (log epoch_loss loss_only w2) !! "./log.csv"
    = Some ("epoch,loss" +:+ newline +:+ ",0.5" +:+ newline
            +:+ ",0.5" +:+ newline).
Proof.
  split; [reflexivity |].
  destruct (second_logger_doubles_rows keep_directory "log"
              ["epoch"; "loss"] "." "," true true no_files loss_only eq_refl
              plain_epoch_loss eq_refl word_epoch_loss)
    as (first & w1 & second & w2 & content & H1 & H2 & Hc & E & _).
  cbv zeta in E.
  assert (Hfirst : first = epoch_loss).
  { apply (f_equal fst) in H1. cbn [fst] in H1.
    rewrite epoch_loss_init in H1. now injection H1. }
  assert (Hw1 :
    w1 = (Logger_init keep_directory "log" ["epoch"; "loss"] "." "," true
            no_files).2) by (now rewrite H1).
  assert (Hsecond : second = epoch_loss).
  { rewrite Hw1 in H2. apply (f_equal fst) in H2. cbn [fst] in H2.
    vm_compute in H2. now injection H2. }
  subst first second. exists w1, w2.
  split; [exact H1 |]. split; [exact H2 |].
  change (file epoch_loss) with "./log.csv" in Hc, E.
  rewrite E. f_equal.
  assert (Hcontent : content = "epoch,loss" +:+ newline).
  { apply (inj Some). rewrite <- Hc.
    apply (f_equal snd) in H2. cbn [snd] in H2. rewrite <- H2, Hw1.
    vm_compute. reflexivity. }
  rewrite Hcontent. reflexivity.
Defined.

End ConcreteLogger.
